(** * qualys_parser.py: a shallow embedding and its specification

    The script reads a CSV export with an [IP] and a [Results] column and
    writes one [(IP, Username)] row per account name found in the results
    text.  Python strings are sequences of Unicode code points; they are
    modelled as [list N]. *)

From Stdlib Require Import NArith String Ascii.
From stdpp Require Import base option list gmap.

Local Open Scope N_scope.

(** ** Python strings *)

Abbreviation pystr := (list N).

(** An ASCII literal as a Python string. *)
Definition str (s : string) : pystr :=
  map N_of_ascii (list_ascii_of_string s).

Definition LF : N := 10.
Definition CR : N := 13.
Definition BACKSLASH : N := 92.

Module Py.

(** [str.isspace] for one character: the code points CPython lists as
    whitespace. *)
Definition isspace (c : N) : bool :=
  ((9 <=? c) && (c <=? 13)) || ((28 <=? c) && (c <=? 32))
  || (c =? 133) || (c =? 160) || (c =? 5760)
  || ((8192 <=? c) && (c <=? 8202))
  || (c =? 8232) || (c =? 8233) || (c =? 8239) || (c =? 8287)
  || (c =? 12288).

Fixpoint lstrip (s : pystr) : pystr :=
  match s with
  | c :: s' => if isspace c then lstrip s' else s
  | [] => []
  end.

Definition rstrip (s : pystr) : pystr := rev (lstrip (rev s)).

(** [s.strip()] *)
Definition strip (s : pystr) : pystr := rstrip (lstrip s).

(** [s.lower()], one character at a time.  The ASCII capitals and the two
    characters outside ASCII whose lowercase form contains an ASCII letter
    (U+0130 and the Kelvin sign U+212A) are mapped as Python maps them.
    Every other character lowercases to characters outside ASCII; it is
    kept as it is, which no comparison with an ASCII word can tell
    apart. *)
Definition lower_char (c : N) : pystr :=
  if (65 <=? c) && (c <=? 90) then [c + 32]
  else if c =? 304 then [105; 775]
  else if c =? 8490 then [107]
  else [c].

Definition lower (s : pystr) : pystr := flat_map lower_char s.

(** [s.startswith(p)], returning what follows the prefix. *)
Fixpoint strip_prefix (p s : pystr) : option pystr :=
  match p, s with
  | [], _ => Some s
  | a :: p', b :: s' => if a =? b then strip_prefix p' s' else None
  | _ :: _, [] => None
  end.

(** [s.replace(old, new)] for a non-empty [old]: occurrences are found
    from the left and do not overlap.  [skip] counts the characters of the
    occurrence just replaced that are still to be passed over. *)
Fixpoint replace_from (skip : nat) (old new s : pystr) : pystr :=
  match s with
  | [] => []
  | c :: s' =>
      match skip with
      | S k => replace_from k old new s'
      | O =>
          match strip_prefix old s with
          | Some _ => new ++ replace_from (pred (length old)) old new s'
          | None => c :: replace_from O old new s'
          end
      end
  end.

Definition replace (old new s : pystr) : pystr := replace_from O old new s.

(** [s.split(sep)] for a one-character separator: empty pieces are kept,
    and the empty string splits into one empty piece. *)
Fixpoint split_acc (sep : N) (cur : pystr) (s : pystr) : list pystr :=
  match s with
  | [] => [rev cur]
  | c :: s' =>
      if c =? sep then rev cur :: split_acc sep [] s'
      else split_acc sep (c :: cur) s'
  end.

Definition split (sep : N) (s : pystr) : list pystr := split_acc sep [] s.

(** [sep.join(pieces)] *)
Fixpoint join (sep : pystr) (pieces : list pystr) : pystr :=
  match pieces with
  | [] => []
  | [p] => p
  | p :: rest => p ++ sep ++ join sep rest
  end.

End Py.

(** ** The regular expression of the validator

    [re.match(r'^[a-z_][a-z0-9_-]*[$]?$', username, re.IGNORECASE)] uses
    four constructs: a character set, a greedy star over a set, an optional
    set and the two anchors. *)

Module Re.

Inductive set_item : Type :=
| Literal (c : N)
| Range (lo hi : N).

Inductive node : Type :=
| AtBeginning                       (* ^ *)
| AtEnd                             (* $ *)
| In (set : list set_item)          (* [...] *)
| MaxRepeat (set : list set_item)   (* [...]* *)
| Optional (set : list set_item).   (* [...]? *)

(** The simple lowercase mapping the engine applies to the subject
    character under IGNORECASE.  It is written out on the characters it
    sends into ASCII; no other character is sent to a member of the sets
    of this program, and the others are kept as they are. *)
Definition lower_unicode (c : N) : N :=
  if (65 <=? c) && (c <=? 90) then c + 32
  else if c =? 304 then 105
  else if c =? 8490 then 107
  else c.

(** Two lowercase characters outside ASCII share their capital with an
    ASCII letter, and the compiler adds them to a set that holds that
    letter: U+0131 with [i] and U+017F with [s].  With U+0130 and U+212A,
    which lowercase to [i] and [k], these are the four letters outside
    ASCII that [[a-z]] matches under IGNORECASE.  The sets are given by
    their lowercase members, as the pattern of this program writes
    them. *)
Definition ignorecase_fixes (c : N) : list N :=
  if c =? 105 then [305] else if c =? 115 then [383] else [].

Definition item_matches (ignorecase : bool) (ch : N) (it : set_item) : bool :=
  match it with
  | Literal c =>
      (ch =? c) ||
      (ignorecase && existsb (N.eqb ch) (ignorecase_fixes c))
  | Range lo hi =>
      ((lo <=? ch) && (ch <=? hi)) ||
      (ignorecase &&
       (((lo <=? 105) && (105 <=? hi) && (ch =? 305)) ||
        ((lo <=? 115) && (115 <=? hi) && (ch =? 383))))
  end.

Definition in_set (ignorecase : bool) (set : list set_item) (c : N) : bool :=
  let ch := if ignorecase then lower_unicode c else c in
  existsb (item_matches ignorecase ch) set.

(** Backtracking match of a sequence of nodes at the head of [s];
    [at_start] tells whether [s] is the whole subject. *)
Fixpoint match_here (ic : bool) (nodes : list node) (at_start : bool)
    (s : pystr) {struct nodes} : bool :=
  match nodes with
  | [] => true
  | AtBeginning :: rest => at_start && match_here ic rest at_start s
  | AtEnd :: rest =>
      match s with
      | [] => match_here ic rest at_start s
      | [c] => (c =? LF) && match_here ic rest at_start s
      | _ => false
      end
  | In set :: rest =>
      match s with
      | c :: s' => in_set ic set c && match_here ic rest false s'
      | [] => false
      end
  | Optional set :: rest =>
      match s with
      | c :: s' =>
          (in_set ic set c && match_here ic rest false s')
          || match_here ic rest at_start s
      | [] => match_here ic rest at_start s
      end
  | MaxRepeat set :: rest =>
      (fix star (at_start : bool) (s : pystr) {struct s} : bool :=
         match s with
         | c :: s' =>
             (in_set ic set c && star false s')
             || match_here ic rest at_start s
         | [] => match_here ic rest at_start s
         end) at_start s
  end.

(** [re.match(pattern, s, flags) is not None] *)
Definition matches (ic : bool) (nodes : list node) (s : pystr) : bool :=
  match_here ic nodes true s.

End Re.

(** ** Values, exceptions and results *)

(** What a [csv.DictReader] row can hold: a string, [None] for a field the
    row is too short to have, or the list of the cells a row has beyond the
    header. *)
Inductive pyval : Type :=
| VNone
| VStr (s : pystr)
| VList (cells : list pystr).

(** Truth value of a Python object. *)
Definition truthy (v : pyval) : bool :=
  match v with
  | VNone => false
  | VStr s => negb (bool_decide (s = []))
  | VList l => negb (bool_decide (l = []))
  end.

Inductive exn : Type :=
| FileNotFoundError
| OSError
| TypeError
| AttributeError
| CsvError
| UnicodeDecodeError.

Inductive result (A : Type) : Type :=
| Ok (a : A)
| Raise (e : exn).
Arguments Ok {A} a.
Arguments Raise {A} e.

(** ** is_valid_username *)

Definition first_set : list Re.set_item :=       (* [a-z_] *)
  [Re.Range 97 122; Re.Literal 95].
Definition middle_set : list Re.set_item :=      (* [a-z0-9_-] *)
  [Re.Range 97 122; Re.Range 48 57; Re.Literal 95; Re.Literal 45].
Definition dollar_set : list Re.set_item :=      (* [$] *)
  [Re.Literal 36].

(** [r'^[a-z_][a-z0-9_-]*[$]?$'] *)
Definition username_pattern : list Re.node :=
  [ Re.AtBeginning;
    Re.In first_set;
    Re.MaxRepeat middle_set;
    Re.Optional dollar_set;
    Re.AtEnd ].

(** [re.match(pattern, string, re.IGNORECASE)] as a truth value; anything
    but a string is refused with a [TypeError]. *)
Definition re_match (pattern : list Re.node) (v : pyval) : result bool :=
  match v with
  | VStr s => Ok (Re.matches true pattern s)
  | _ => Raise TypeError
  end.

(** [len(username)] *)
Definition py_len (v : pyval) : result nat :=
  match v with
  | VStr s => Ok (length s)
  | VList l => Ok (length l)
  | VNone => Raise TypeError
  end.

Definition is_valid_username (username : pyval) : result bool :=
  if negb (truthy username) then Ok false
  else
    match re_match username_pattern username with
    | Raise e => Raise e
    | Ok m =>
        if negb m then Ok false
        else
          match py_len username with
          | Raise e => Raise e
          | Ok n => if (32 <? n)%nat then Ok false else Ok true
          end
    end.

(** ** Output, diagnostics and the file system *)

(** What reaches standard output: a printed line or a row of the CSV
    writer. *)
Inductive out_item : Type :=
| Printed (line : pystr)
| CsvRow (cells : list pystr).

(** The messages of the program on standard error, by their format string
    and arguments. *)
Inductive diag : Type :=
| ErrColumns        (* Error: CSV must have 'IP' and 'Results' columns *)
| FoundColumns (fieldnames : list pystr)        (* Found columns: ... *)
| ErrNotFound (input_file : pystr)   (* Error: File '...' not found *)
| ErrException (e : exn)                                (* Error: ... *)
| WarnNoIP (row_count : nat)       (* Warning: Row n has no IP address *)
| WarnNoResults (row_count : nat) (ip : pystr)
                                (* Warning: Row n (ip) has no results *)
| WarnNoUsernames (ip : pystr)
                          (* Warning: No valid usernames found for ip *)
| Summary (row_count user_count : nat).
                            (* Processed n IPs, found m user accounts *)

(** What iterating the [DictReader] gives next: a row, or an exception of
    the decoder or of the CSV parser. *)
Inductive row_event : Type :=
| Row (row : gmap pystr pyval)
| ReadFails (e : exn).

(** An opened input: its header ([None] for an empty file) and its rows. *)
Record csv_file : Type := {
  fieldnames : result (option (list pystr));
  events : list row_event
}.

(** The file system the run sees: what opening a path for reading gives,
    and whether opening a path for writing fails. *)
Record env : Type := {
  open_read : pystr -> result csv_file;
  open_write : pystr -> option exn
}.

(** What the run has produced so far.  [outfile] is [None] until the output
    file is opened for writing, which creates it empty. *)
Record state : Type := {
  stdout : list out_item;
  stderr : list diag;
  outfile : option (list (list pystr))
}.

Definition initial : state :=
  {| stdout := []; stderr := []; outfile := None |}.

(** ** Computations with state and exceptions *)

Definition M (A : Type) : Type := state -> result A * state.

#[global] Instance M_ret : MRet M := fun A a st => (Ok a, st).

#[global] Instance M_bind : MBind M := fun A B k c st =>
  match c st with
  | (Ok a, st') => k a st'
  | (Raise e, st') => (Raise e, st')
  end.

Definition raise {A} (e : exn) : M A := fun st => (Raise e, st).

Definition lift {A} (r : result A) : M A := fun st => (r, st).

(** [try: body  except ... as e: handler(e)], every exception of the model
    being an [Exception]. *)
Definition try_except {A} (body : M A) (handler : exn -> M A) : M A :=
  fun st =>
    match body st with
    | (Ok a, st') => (Ok a, st')
    | (Raise e, st') => handler e st'
    end.

(** [print(..., file=sys.stderr)] *)
Definition eprint (d : diag) : M unit := fun st =>
  (Ok tt, {| stdout := stdout st; stderr := stderr st ++ [d];
             outfile := outfile st |}).

(** [print(line)] *)
Definition print (line : pystr) : M unit := fun st =>
  (Ok tt, {| stdout := stdout st ++ [Printed line]; stderr := stderr st;
             outfile := outfile st |}).

(** Where a [csv.writer] writes. *)
Inductive writer : Type :=
| ToStdout
| ToFile.

(** [writer.writerow(cells)] *)
Definition writerow (w : writer) (cells : list pystr) : M unit := fun st =>
  match w with
  | ToStdout =>
      (Ok tt, {| stdout := stdout st ++ [CsvRow cells]; stderr := stderr st;
                 outfile := outfile st |})
  | ToFile =>
      (Ok tt, {| stdout := stdout st; stderr := stderr st;
                 outfile := Some (default [] (outfile st) ++ [cells]) |})
  end.

(** ** process_rows *)

(** [row.get(key, '')] *)
Definition row_get (row : gmap pystr pyval) (key : pystr) : pyval :=
  default (VStr []) (row !! key).

(** [v.strip()] *)
Definition py_strip (v : pyval) : result pystr :=
  match v with
  | VStr s => Ok (Py.strip s)
  | _ => Raise AttributeError
  end.

Definition ESC_N : pystr := [BACKSLASH; 110].             (* '\\n' *)
Definition ESC_RN : pystr := [BACKSLASH; 114; BACKSLASH; 110].   (* '\\r\\n' *)
Definition CRLF : pystr := [CR; LF].

(** The chain of replacements of line 87 on a string. *)
Definition normalize (results : pystr) : pystr :=
  Py.replace [CR] [LF]
    (Py.replace CRLF [LF]
       (Py.replace ESC_N [LF]
          (Py.replace ESC_RN [LF] results))).

(** The same on a value; a list has no [replace]. *)
Definition py_normalize (v : pyval) : result pystr :=
  match v with
  | VStr s => Ok (normalize s)
  | _ => Raise AttributeError
  end.

Definition noise_tokens : list pystr :=
  [str "username"; str "results"; str "user"; str "name"].

(** [username.lower() in ['username', 'results', 'user', 'name']] *)
Definition is_noise (username : pystr) : bool :=
  bool_decide (Py.lower username ∈ noise_tokens).

(** The loop over the lines of one row; the counters are [user_count] and
    [found_users]. *)
Fixpoint lines_loop (w : writer) (ip : pystr) (lines : list pystr)
    (user_count found_users : nat) : M (nat * nat) :=
  match lines with
  | [] => mret (user_count, found_users)
  | line :: rest =>
      let username := Py.strip line in
      if bool_decide (username = []) then
        lines_loop w ip rest user_count found_users
      else if is_noise username then
        lines_loop w ip rest user_count found_users
      else
        valid ← lift (is_valid_username (VStr username));
        if (valid : bool) then
          writerow w [ip; username];;
          lines_loop w ip rest (S user_count) (S found_users)
        else
          lines_loop w ip rest user_count found_users
  end.

(** The loop over the rows; the counters are [row_count] and
    [user_count]. *)
Fixpoint rows_loop (w : writer) (reader : list row_event)
    (row_count user_count : nat) : M (nat * nat) :=
  match reader with
  | [] => mret (row_count, user_count)
  | ReadFails e :: _ => raise e
  | Row row :: rest =>
      let row_count := S row_count in
      ip ← lift (py_strip (row_get row (str "IP")));
      let results := row_get row (str "Results") in
      if bool_decide (ip = []) then
        eprint (WarnNoIP row_count);;
        rows_loop w rest row_count user_count
      else if negb (truthy results) then
        eprint (WarnNoResults row_count ip);;
        rows_loop w rest row_count user_count
      else
        results ← lift (py_normalize results);
        let lines := Py.split LF results in
        '(user_count, found_users) ← lines_loop w ip lines user_count 0%nat;
        (if bool_decide (found_users = 0%nat)
         then eprint (WarnNoUsernames ip) else mret tt);;
        rows_loop w rest row_count user_count
  end.

Definition process_rows (reader : list row_event) (w : writer) : M unit :=
  '(row_count, user_count) ← rows_loop w reader 0%nat 0%nat;
  eprint (Summary row_count user_count).

(** ** parse_qualys_csv and main *)

(** [key in fieldnames]; [None] is not iterable. *)
Definition py_in (key : pystr) (names : option (list pystr)) : result bool :=
  match names with
  | Some l => Ok (bool_decide (key ∈ l))
  | None => Raise TypeError
  end.

(** [open(output_file, 'w', newline='')]: the file is created or
    emptied. *)
Definition open_out (world : env) (path : pystr) : M unit := fun st =>
  match open_write world path with
  | Some e => (Raise e, st)
  | None =>
      (Ok tt, {| stdout := stdout st; stderr := stderr st;
                 outfile := Some [] |})
  end.

Definition header_row : list pystr := [str "IP"; str "Username"].

Definition parse_body (world : env) (input_file : pystr)
    (output_file : option pystr) : M bool :=
  f ← lift (open_read world input_file);
  names ← lift (fieldnames f);
  has_ip ← lift (py_in (str "IP") names);
  missing ← (if negb has_ip then mret true
             else has_results ← lift (py_in (str "Results") names);
                  mret (negb has_results));
  if (missing : bool) then
    eprint ErrColumns;;
    eprint (FoundColumns (default [] names));;
    mret false
  else
    match output_file with
    | Some (c :: path) =>
        open_out world (c :: path);;
        writerow ToFile header_row;;
        process_rows (events f) ToFile;;
        mret true
    | _ =>
        writerow ToStdout header_row;;
        process_rows (events f) ToStdout;;
        mret true
    end.

(** The two [except] clauses of [parse_qualys_csv]. *)
Definition except_clauses (input_file : pystr) (e : exn) : M bool :=
  match e with
  | FileNotFoundError => eprint (ErrNotFound input_file);; mret false
  | _ => eprint (ErrException e);; mret false
  end.

Definition parse_qualys_csv (world : env) (input_file : pystr)
    (output_file : option pystr) : M bool :=
  try_except (parse_body world input_file output_file)
    (except_clauses input_file).

Definition usage : list pystr :=
  [ str "Usage: python3 qualys_parser.py <input.csv> [output.csv]";
    str "";
    str "Input:  CSV with 'IP' and 'Results' columns";
    str "Output: CSV with 'IP' and 'Username' columns (one row per user)";
    str "";
    str "Examples:";
    str "  python3 qualys_parser.py qualys_report.csv > output.csv";
    str "  python3 qualys_parser.py qualys_report.csv output.csv";
    str "" ].

Fixpoint print_all (lines : list pystr) : M unit :=
  match lines with
  | [] => mret tt
  | l :: rest => print l;; print_all rest
  end.

(** [main()] with [sys.argv] given; the value is the status passed to
    [sys.exit]. *)
Definition main (world : env) (argv : list pystr) : M Z :=
  match argv with
  | _ :: input_file :: rest =>
      let output_file := match rest with o :: _ => Some o | [] => None end in
      success ← parse_qualys_csv world input_file output_file;
      mret (if (success : bool) then 0%Z else 1%Z)
  | _ =>
      print_all usage;;
      mret 1%Z
  end.

(** ** Line-break encodings *)

(** The five ways of ending a line that the specification lists: LF, CRLF,
    CR and the two escape sequences written out in characters. *)
Definition separators : list pystr := [[LF]; CRLF; [CR]; ESC_N; ESC_RN].

(** The normalizer: the chain of replacements, then the split on LF. *)
Definition logical_lines (results : pystr) : list pystr :=
  Py.split LF (normalize results).

(** Does [s] hold a backslash followed by [n]? *)
Fixpoint has_escaped_n (s : pystr) : bool :=
  match s with
  | a :: (b :: _) as t => ((a =? BACKSLASH) && (b =? 110)) || has_escaped_n t
  | _ => false
  end.

Definition no_line_break (s : pystr) : bool :=
  forallb (fun c => negb (c =? CR) && negb (c =? LF)) s.

(** A line that holds no line break in any of the encodings. *)
Definition plain_line (s : pystr) : bool :=
  no_line_break s && negb (has_escaped_n s).

(** Does [s] end with a backslash followed by [r]? *)
Fixpoint ends_with_escaped_r (s : pystr) : bool :=
  match s with
  | [] => false
  | [a; b] => (a =? BACKSLASH) && (b =? 114)
  | _ :: t => ends_with_escaped_r t
  end.

(** ** The row loop as a function of its input *)

(** The rows the writer [w] has written so far. *)
Definition csv_rows (w : writer) (st : state) : list (list pystr) :=
  match w with
  | ToStdout =>
      omap (fun it => match it with CsvRow c => Some c | Printed _ => None end)
        (stdout st)
  | ToFile => default [] (outfile st)
  end.

(** [is_valid_username(username)] as a truth value. *)
Definition passes_validator (username : pystr) : bool :=
  match is_valid_username (VStr username) with
  | Ok b => b
  | Raise _ => false
  end.

(** The tests a stripped line goes through before it is written: not a
    noise token, and a valid username (the empty string is not one). *)
Definition accepted (username : pystr) : bool :=
  negb (is_noise username) && passes_validator username.

(** One iteration of the loop over the rows, as a value: the row is
    skipped for its host identifier or for its results, or its usernames are
    written, or an exception ends the loop. *)
Inductive outcome : Type :=
| NoIP
| NoResults (ip : pystr)
| Users (ip : pystr) (usernames : list pystr)
| Fails (e : exn).

Definition row_outcome (ev : row_event) : outcome :=
  match ev with
  | ReadFails e => Fails e
  | Row row =>
      match py_strip (row_get row (str "IP")) with
      | Raise e => Fails e
      | Ok ip =>
          let results := row_get row (str "Results") in
          if bool_decide (ip = []) then NoIP
          else if negb (truthy results) then NoResults ip
          else
            match py_normalize results with
            | Raise e => Fails e
            | Ok s =>
                Users ip (List.filter accepted (map Py.strip (Py.split LF s)))
            end
      end
  end.

Definition outcome_rows (o : outcome) : list (list pystr) :=
  match o with
  | Users ip usernames => map (fun u => [ip; u]) usernames
  | _ => []
  end.

Definition outcome_warnings (row_count : nat) (o : outcome) : list diag :=
  match o with
  | NoIP => [WarnNoIP row_count]
  | NoResults ip => [WarnNoResults row_count ip]
  | Users ip [] => [WarnNoUsernames ip]
  | _ => []
  end.

(** The rows, the warnings and the value of the whole loop. *)
Fixpoint rows_written (reader : list row_event) : list (list pystr) :=
  match reader with
  | [] => []
  | ev :: rest =>
      match row_outcome ev with
      | Fails _ => []
      | o => outcome_rows o ++ rows_written rest
      end
  end.

Fixpoint warnings (row_count : nat) (reader : list row_event) : list diag :=
  match reader with
  | [] => []
  | ev :: rest =>
      match row_outcome ev with
      | Fails _ => []
      | o => outcome_warnings (S row_count) o ++ warnings (S row_count) rest
      end
  end.

Fixpoint loop_result (reader : list row_event) (row_count user_count : nat)
    : result (nat * nat) :=
  match reader with
  | [] => Ok (row_count, user_count)
  | ev :: rest =>
      match row_outcome ev with
      | Fails e => Raise e
      | o => loop_result rest (S row_count)
               (user_count + length (outcome_rows o))
      end
  end.

(** ** Candidate lines and output records *)

(** The host identifier of a row that is not skipped for it. *)
Definition host_of (row : gmap pystr pyval) : option pystr :=
  match py_strip (row_get row (str "IP")) with
  | Ok ip => if bool_decide (ip = []) then None else Some ip
  | Raise _ => None
  end.

(** The candidate lines of a row: a row with an empty host identifier or an
    empty results field is skipped; otherwise its results field is
    normalized and split. *)
Definition candidate_lines (ev : row_event) : list pystr :=
  match ev with
  | Row row =>
      match host_of row, row_get row (str "Results") with
      | Some _, VStr s => if bool_decide (s = []) then [] else logical_lines s
      | _, _ => []
      end
  | ReadFails _ => []
  end.

(** The output records of a row: its host identifier with each candidate
    that is accepted once stripped, in the order of the candidates. *)
Definition row_output (ev : row_event) : list (list pystr) :=
  match ev with
  | Row row =>
      match host_of row with
      | Some ip =>
          map (fun u => [ip; u])
            (List.filter accepted (map Py.strip (candidate_lines ev)))
      | None => []
      end
  | ReadFails _ => []
  end.

(** A row as [csv.DictReader] gives it when the host column is there: the
    host identifier is a string, the results field a string or [None]. *)
Definition row_well_typed (ev : row_event) : bool :=
  match ev with
  | Row row =>
      match row_get row (str "IP"), row_get row (str "Results") with
      | VStr _, (VStr _ | VNone) => true
      | _, _ => false
      end
  | ReadFails _ => false
  end.

Definition valid_input (reader : list row_event) : bool :=
  forallb row_well_typed reader.

(** How many lines pass the validator and are not noise tokens, the tests
    being made on the stripped line. *)
Definition count_accepted (lines : list pystr) : nat :=
  length (List.filter
            (fun line => passes_validator (Py.strip line)
                         && negb (is_noise (Py.strip line))) lines).

(** How many lines pass the validator. *)
Definition count_valid (lines : list pystr) : nat :=
  length (List.filter (fun line => passes_validator (Py.strip line)) lines).

(** ** Case and outer whitespace *)

Definition ascii_lower (c : N) : N :=
  if (65 <=? c) && (c <=? 90) then c + 32 else c.

(** Two strings equal up to the case of their ASCII letters. *)
Definition caseless_eq (a b : pystr) : bool :=
  bool_decide (map ascii_lower a = map ascii_lower b).

(** A string that neither begins nor ends with whitespace. *)
Definition no_outer_space (s : pystr) : bool :=
  match head s, last s with
  | Some a, Some b => negb (Py.isspace a) && negb (Py.isspace b)
  | _, _ => true
  end.

(** ** Success of a run *)

(** Does the run of [main] succeed?  The input path is given and opens, the
    header holds both columns, the output file (if one is named) opens, and
    the loop over the rows raises nothing. *)
Definition run_ok (world : env) (argv : list pystr) : bool :=
  match argv with
  | _ :: input_file :: rest =>
      match open_read world input_file with
      | Ok f =>
          match fieldnames f with
          | Ok (Some names) =>
              bool_decide (str "IP" ∈ names)
              && bool_decide (str "Results" ∈ names)
              && match rest with
                 | (c :: path) :: _ =>
                     match open_write world (c :: path) with
                     | None => true
                     | Some _ => false
                     end
                 | _ => true
                 end
              && match loop_result (events f) 0 0 with
                 | Ok _ => true
                 | Raise _ => false
                 end
          | _ => false
          end
      | Raise _ => false
      end
  | _ => false
  end.

(** ** Example inputs *)

(** The row of a two-column file. *)
Definition row_of (ip results : pystr) : gmap pystr pyval :=
  <[str "IP" := VStr ip]> (<[str "Results" := VStr results]> ∅).

(** Three rows: one with four lines, one without host, one without
    results. *)
Definition three_rows : list row_event :=
  [ Row (row_of (str "10.0.0.1") (str "root\nUser\nbad user\r\nadmin"));
    Row (row_of (str "") (str "root"));
    Row (row_of (str "10.0.0.2") (str "")) ].

(** A file system whose input has one row of each kind: no host, no
    results, no username, and two usernames. *)
Definition world_with_warnings : env :=
  {| open_read := fun _ =>
       Ok {| fieldnames := Ok (Some [str "IP"; str "Results"]);
             events :=
               [ Row (row_of (str "  ") (str "root"));
                 Row (row_of (str "10.0.0.2") (str ""));
                 Row (row_of (str "10.0.0.3") (str "bad user\nName"));
                 Row (row_of (str "10.0.0.1") (str "root\r\n admin ")) ] |};
     open_write := fun _ => None |}.

(** A file system whose input has the columns [IP] and [Output]. *)
Definition world_without_results : env :=
  {| open_read := fun _ =>
       Ok {| fieldnames := Ok (Some [str "IP"; str "Output"]);
             events := [Row (<[str "IP" := VStr (str "10.0.0.1")]>
                               (<[str "Output" := VStr (str "root")]> ∅))] |};
     open_write := fun _ => None |}.

(** ** The username contract as the specification words it *)

Module Spec.

Definition is_letter (c : N) : bool :=
  ((97 <=? c) && (c <=? 122)) || ((65 <=? c) && (c <=? 90)).

Definition is_digit (c : N) : bool := (48 <=? c) && (c <=? 57).

(** a letter or underscore *)
Definition first_ok (c : N) : bool := is_letter c || (c =? 95).

(** a letter, digit, underscore or hyphen *)
Definition middle_ok (c : N) : bool :=
  is_letter c || is_digit c || (c =? 95) || (c =? 45).

(** zero or more middle characters, then optionally one dollar sign, up
    to the end of the string *)
Fixpoint tail_ok (s : pystr) : bool :=
  match s with
  | [] => true
  | [c] => middle_ok c || (c =? 36)
  | c :: s' => middle_ok c && tail_ok s'
  end.

(** non-empty, matching the pattern over the whole string, and of at most
    32 characters *)
Definition valid_username (s : pystr) : bool :=
  match s with
  | [] => false
  | c :: s' => first_ok c && tail_ok s' && (length s <=? 32)%nat
  end.

(** The four letters outside ASCII that [[a-z]] matches under
    IGNORECASE: U+0130, U+0131, U+017F and U+212A. *)
Definition is_extra_letter (c : N) : bool :=
  (c =? 304) || (c =? 305) || (c =? 383) || (c =? 8490).

End Spec.

(** ** The strings the validator accepts *)

(** What [[a-z_]] and [[a-z0-9_-]] match under IGNORECASE. *)
Definition first_char (c : N) : bool :=
  Spec.first_ok c || Spec.is_extra_letter c.
Definition middle_char (c : N) : bool :=
  Spec.middle_ok c || Spec.is_extra_letter c.

(** What [[$]?$] can consume: nothing, a dollar sign, and either of them
    followed by one line feed. *)
Definition username_endings : list pystr := [[]; [36]; [LF]; [36; LF]].

(** ** The state a loop leaves *)

(** The state after the writer [w] has written [rows] and the messages
    [msgs] have gone to standard error. *)
Definition put (w : writer) (rows : list (list pystr)) (msgs : list diag)
    (st : state) : state :=
  {| stdout := match w with
               | ToStdout => stdout st ++ map CsvRow rows
               | ToFile => stdout st
               end;
     stderr := stderr st ++ msgs;
     outfile := match w, rows with
                | ToFile, _ :: _ => Some (default [] (outfile st) ++ rows)
                | _, _ => outfile st
                end |}.

(** The three warnings, as opposed to the errors and the summary. *)
Definition is_warning (d : diag) : bool :=
  match d with
  | WarnNoIP _ | WarnNoResults _ _ | WarnNoUsernames _ => true
  | _ => false
  end.

(** Two reads that agree on the columns [IP] and [Results]. *)
Definition same_fields (ev ev' : row_event) : Prop :=
  match ev, ev' with
  | Row row, Row row' =>
      row !! str "IP" = row' !! str "IP" /\
      row !! str "Results" = row' !! str "Results"
  | ReadFails e, ReadFails e' => e = e'
  | _, _ => False
  end.

(** ** What a run of [main] leaves *)

(** The message of the [except] clause that catches [e]. *)
Definition error_message (input_file : pystr) (e : exn) : diag :=
  match e with
  | FileNotFoundError => ErrNotFound input_file
  | _ => ErrException e
  end.

(** Where the rows go: the output path if it is given and not empty. *)
Definition destination (rest : list pystr) : option pystr :=
  match rest with
  | (c :: path) :: _ => Some (c :: path)
  | _ => None
  end.

(** A file system whose input breaks off after its first row. *)
Definition world_with_read_error : env :=
  {| open_read := fun _ =>
       Ok {| fieldnames := Ok (Some [str "IP"; str "Results"]);
             events :=
               [ Row (row_of (str "10.0.0.1") (str "root"));
                 ReadFails CsvError;
                 Row (row_of (str "10.0.0.2") (str "admin")) ] |};
     open_write := fun _ => None |}.

(** A file system in which no file can be opened for writing. *)
Definition world_read_only : env :=
  {| open_read := open_read world_with_warnings;
     open_write := fun _ => Some FileNotFoundError |}.

(** The input the file system gives at a path (empty when it gives
    none). *)
Definition opened (world : env) (path : pystr) : csv_file :=
  match open_read world path with
  | Ok f => f
  | Raise _ => {| fieldnames := Ok None; events := [] |}
  end.

(** A file system without any input file. *)
Definition world_without_input : env :=
  {| open_read := fun _ => Raise FileNotFoundError;
     open_write := fun _ => None |}.

(** * Theorems *)

Ltac bool_to_prop :=
  rewrite ?orb_true_iff, ?andb_true_iff, ?orb_false_iff, ?andb_false_iff,
    ?N.leb_le, ?N.eqb_eq, ?N.leb_gt, ?N.eqb_neq in *.

(** Equalities between boolean tests on one character. *)
Ltac solve_charclass :=
  apply eq_true_iff_eq; cbn;
  repeat match goal with
  | |- context [if ?b then _ else _] => destruct b eqn:?
  end;
  cbn; bool_to_prop;
  repeat match goal with H : _ = false |- _ => revert H end;
  repeat match goal with H : _ = true |- _ => revert H end;
  bool_to_prop; lia.

(** ** The validator *)

Lemma is_valid_username_str (s : pystr) :
  is_valid_username (VStr s) =
  Ok (negb (bool_decide (s = []))
      && Re.matches true username_pattern s
      && negb (32 <? length s)%nat).
Proof.
  unfold is_valid_username, truthy, re_match, py_len.
  destruct (bool_decide (s = [])); simpl; [done|].
  destruct (Re.matches true username_pattern s); simpl; [|done].
  by destruct (32 <? length s)%nat.
Qed.

(** The examples of the specification, run on the code. *)
Lemma is_valid_username_examples :
  is_valid_username (VStr (str "root")) = Ok true /\
  is_valid_username (VStr (str "_svc")) = Ok true /\
  is_valid_username (VStr (str "user$")) = Ok true /\
  is_valid_username (VStr (str "3root")) = Ok false /\
  is_valid_username (VStr (repeat 97 33)) = Ok false /\
  is_valid_username (VStr (str "")) = Ok false /\
  is_valid_username (VStr (str "bad user")) = Ok false.
Proof. repeat split; vm_compute; reflexivity. Qed.

(** C1 (the code departs from the contract): the anchor [$] of the pattern
    also matches before a newline that ends the string, so
    [is_valid_username] accepts the five characters of [root] followed by
    a line feed, which the contract (the pattern over the whole string)
    rejects. *)
Theorem is_valid_username_accepts_trailing_newline :
  is_valid_username (VStr (str "root" ++ [LF])) = Ok true /\
  Spec.valid_username (str "root" ++ [LF]) = false.
Proof. split; vm_compute; reflexivity. Qed.

(** Under IGNORECASE the set [[a-z]] also matches four letters outside
    ASCII; the Kelvin sign alone is accepted as a username. *)
Lemma is_valid_username_accepts_kelvin_sign :
  is_valid_username (VStr [8490]) = Ok true /\
  Spec.valid_username [8490] = false.
Proof. split; vm_compute; reflexivity. Qed.

(** *** Where the code and the contract agree *)

Lemma in_set_first (c : N) :
  Re.in_set true first_set c = Spec.first_ok c || Spec.is_extra_letter c.
Proof.
  unfold Re.in_set, Re.lower_unicode, Spec.first_ok, Spec.is_letter,
    Spec.is_extra_letter.
  solve_charclass.
Qed.

Lemma in_set_middle (c : N) :
  Re.in_set true middle_set c = Spec.middle_ok c || Spec.is_extra_letter c.
Proof.
  unfold Re.in_set, Re.lower_unicode, Spec.middle_ok, Spec.is_letter,
    Spec.is_digit, Spec.is_extra_letter.
  solve_charclass.
Qed.

Lemma in_set_dollar (c : N) : Re.in_set true dollar_set c = (c =? 36).
Proof. unfold Re.in_set, Re.lower_unicode. solve_charclass. Qed.

Lemma match_here_star ic set rest b c s :
  Re.match_here ic (Re.MaxRepeat set :: rest) b (c :: s) =
  (Re.in_set ic set c && Re.match_here ic (Re.MaxRepeat set :: rest) false s)
  || Re.match_here ic rest b (c :: s).
Proof. reflexivity. Qed.

Lemma match_tail_agrees (s : pystr) :
  Forall (fun c => Spec.is_extra_letter c = false) s ->
  last s <> Some LF ->
  Re.match_here true
    [Re.MaxRepeat middle_set; Re.Optional dollar_set; Re.AtEnd] false s
  = Spec.tail_ok s.
Proof.
  intros Hx Hl. induction s as [|c s IH]; [reflexivity|].
  rewrite match_here_star.
  inversion Hx as [|? ? Hc Hs]; subst.
  destruct s as [|d s].
  - cbn [Re.match_here]. rewrite in_set_middle, in_set_dollar, Hc.
    cbn. assert ((c =? LF) = false) as ->
      by (apply N.eqb_neq; intros ->; by apply Hl).
    by rewrite !andb_true_r, !orb_false_r.
  - rewrite IH; [|done|by rewrite last_cons_cons in Hl].
    change (Spec.tail_ok (c :: d :: s))
      with (Spec.middle_ok c && Spec.tail_ok (d :: s)).
    rewrite in_set_middle, Hc, orb_false_r.
    cbn [Re.match_here]. rewrite in_set_dollar.
    assert (match s with [] => (d =? LF) && true | _ :: _ => false end = false)
      as Hend.
    { destruct s; [|done]. rewrite andb_true_r. apply N.eqb_neq.
      intros ->. by apply Hl. }
    rewrite Hend, andb_false_r. by rewrite !orb_false_r.
Qed.

(** On strings that hold none of the four extra letters and do not end
    with a line feed, the validator computes the contract. *)
Lemma is_valid_username_agrees (s : pystr) :
  Forall (fun c => Spec.is_extra_letter c = false) s ->
  last s <> Some LF ->
  is_valid_username (VStr s) = Ok (Spec.valid_username s).
Proof.
  intros Hx Hl. rewrite is_valid_username_str. f_equal.
  destruct s as [|c s]; [reflexivity|].
  inversion Hx as [|? ? Hc Hs]; subst.
  assert (last s <> Some LF) as Hl'.
  { destruct s; [done|]. by rewrite last_cons_cons in Hl. }
  unfold Re.matches, username_pattern.
  cbn [Re.match_here bool_decide decide_rel negb andb].
  rewrite bool_decide_eq_false_2 by done.
  rewrite match_tail_agrees by done.
  rewrite in_set_first, Hc, orb_false_r.
  unfold Spec.valid_username. cbn [negb andb]. f_equal.
  destruct (Nat.ltb_spec 32 (length (c :: s)));
    destruct (Nat.leb_spec (length (c :: s)) 32); simpl; lia || done.
Qed.

(** C9: on every string [is_valid_username] returns a boolean; it raises
    nothing. *)
Theorem is_valid_username_total (s : pystr) :
  exists b : bool, is_valid_username (VStr s) = Ok b.
Proof. rewrite is_valid_username_str. eauto. Qed.

(** What is not a string can make it raise: a non-empty list reaches
    [re.match]. *)
Lemma is_valid_username_list_raises :
  is_valid_username (VList [str "root"]) = Raise TypeError.
Proof. reflexivity. Qed.

(** ** The line normalizer *)

(** *** [replace], [split] and [join] *)

Lemma strip_prefix_app old r : Py.strip_prefix old (old ++ r) = Some r.
Proof. induction old as [|a old IH]; [done|]. simpl. by rewrite N.eqb_refl. Qed.

Lemma strip_prefix_Some old s r : Py.strip_prefix old s = Some r -> s = old ++ r.
Proof.
  revert s. induction old as [|a old IH]; intros s H; simpl in H.
  - by inversion H.
  - destruct s as [|b s]; [done|].
    destruct (N.eqb_spec a b); [|done]. subst. simpl. f_equal. by apply IH.
Qed.

Lemma replace_from_drop k old new s :
  Py.replace_from k old new s = Py.replace old new (drop k s).
Proof.
  revert k. induction s as [|c s IH]; intros k.
  - by destruct k.
  - destruct k; [done|]. simpl. apply IH.
Qed.

Lemma replace_nil old new : Py.replace old new [] = [].
Proof. done. Qed.

Lemma replace_match old new r :
  old <> [] -> Py.replace old new (old ++ r) = new ++ Py.replace old new r.
Proof.
  intros Hne. destruct old as [|a old]; [done|].
  unfold Py.replace at 1. 
  change ((a :: old) ++ r) with (a :: (old ++ r)).
  cbn [Py.replace_from]. 
  change (a :: (old ++ r)) with ((a :: old) ++ r).
  rewrite strip_prefix_app. rewrite replace_from_drop. simpl.
  by rewrite drop_app_length.
Qed.

Lemma replace_skip old new c s :
  Py.strip_prefix old (c :: s) = None ->
  Py.replace old new (c :: s) = c :: Py.replace old new s.
Proof. intros H. unfold Py.replace. cbn [Py.replace_from]. by rewrite H. Qed.

Lemma replace_keep old new l r :
  (forall l2, l2 <> [] -> l2 `suffix_of` l -> Py.strip_prefix old (l2 ++ r) = None) ->
  Py.replace old new (l ++ r) = l ++ Py.replace old new r.
Proof.
  induction l as [|c l IH]; intros H; [done|].
  simpl. rewrite replace_skip.
  - f_equal. apply IH. intros l2 Hne Hs. apply H; [done|]. by apply suffix_cons_r.
  - apply (H (c :: l)); done.
Qed.

Lemma replace_join old new sep sep' lines :
  (forall r, Py.replace old new (sep ++ r) = sep' ++ Py.replace old new r) ->
  Forall (fun l => forall l2 r, l2 <> [] -> l2 `suffix_of` l ->
            (r = [] \/ exists r', r = sep ++ r') ->
            Py.strip_prefix old (l2 ++ r) = None) lines ->
  Py.replace old new (Py.join sep lines) = Py.join sep' lines.
Proof.
  intros Hsep. induction lines as [|l ls IH]; intros H; [done|].
  inversion H as [|? ? Hl Hls]; subst.
  destruct ls as [|l' ls].
  - simpl. rewrite <- (app_nil_r l) at 1. rewrite replace_keep.
    + by rewrite replace_nil, app_nil_r.
    + intros. apply Hl; auto.
  - change (Py.join sep (l :: l' :: ls)) with (l ++ sep ++ Py.join sep (l' :: ls)).
    change (Py.join sep' (l :: l' :: ls)) with (l ++ sep' ++ Py.join sep' (l' :: ls)).
    rewrite replace_keep.
    + by rewrite Hsep, IH.
    + intros. apply Hl; eauto.
Qed.


Lemma replace_absent_char old new x s :
  x ∈ old -> x ∉ s -> Py.replace old new s = s.
Proof.
  intros Hin Hnot. rewrite <- (app_nil_r s) at 1. rewrite replace_keep.
  - by rewrite replace_nil, app_nil_r.
  - intros l2 _ Hs. rewrite app_nil_r.
    destruct (Py.strip_prefix old l2) as [r|] eqn:E; [|done].
    apply strip_prefix_Some in E. subst l2. exfalso. apply Hnot.
    destruct Hs as [k ->]. set_solver.
Qed.

Lemma has_escaped_n_suffix l2 l :
  l2 `suffix_of` l -> has_escaped_n l = false -> has_escaped_n l2 = false.
Proof.
  intros [k ->]. induction k as [|a k IH]; [done|].
  intros H. apply IH. simpl in H. destruct (k ++ l2); [by destruct l2|].
  by apply orb_false_iff in H as [_ H].
Qed.

Lemma replace_no_escaped_n old new s :
  old = ESC_N \/ old = ESC_RN ->
  has_escaped_n s = false -> Py.replace old new s = s.
Proof.
  intros Hold Hs. rewrite <- (app_nil_r s) at 1. rewrite replace_keep.
  - by rewrite replace_nil, app_nil_r.
  - intros l2 _ Hsuf. rewrite app_nil_r.
    destruct (Py.strip_prefix old l2) as [r|] eqn:E; [|done].
    apply strip_prefix_Some in E.
    assert (H2 := has_escaped_n_suffix _ _ Hsuf Hs).
    destruct Hold; subst old l2; vm_compute in H2; [done|].
    destruct r; done.
Qed.

Lemma has_escaped_n_app a b :
  has_escaped_n a = false -> has_escaped_n b = false ->
  head b <> Some 110 -> has_escaped_n (a ++ b) = false.
Proof.
  intros Ha Hb Hh. induction a as [|x a IH]; [done|].
  destruct a as [|y a].
  - simpl. destruct b as [|z b]; [done|]. 
    change (has_escaped_n (x :: z :: b))
      with (((x =? BACKSLASH) && (z =? 110)) || has_escaped_n (z :: b)).
    rewrite Hb, orb_false_r. apply andb_false_iff. right. apply N.eqb_neq.
    intros ->. by apply Hh.
  - change (has_escaped_n ((x :: y :: a) ++ b))
      with (((x =? BACKSLASH) && (y =? 110)) || has_escaped_n ((y :: a) ++ b)).
    change (has_escaped_n (x :: y :: a))
      with (((x =? BACKSLASH) && (y =? 110)) || has_escaped_n (y :: a)) in Ha.
    apply orb_false_iff in Ha as [-> Ha]. by rewrite IH.
Qed.

Lemma join_cons2 sep l l' ls :
  Py.join sep (l :: l' :: ls) = l ++ sep ++ Py.join sep (l' :: ls).
Proof. done. Qed.

Lemma not_elem_of_join x sep lines :
  x ∉ sep -> Forall (fun l => x ∉ l) lines -> x ∉ Py.join sep lines.
Proof.
  intros Hsep. induction lines as [|l ls IH]; intros H.
  - simpl. set_solver.
  - inversion H as [|? ? Hl Hls]; subst. destruct ls as [|l' ls]; [done|].
    rewrite join_cons2. rewrite !not_elem_of_app. auto.
Qed.

Lemma plain_line_no_cr l : plain_line l = true -> CR ∉ l.
Proof.
  unfold plain_line, no_line_break. intros [H _]%andb_true_iff Hin.
  rewrite forallb_forall in H. apply list_elem_of_In in Hin. apply H in Hin.
  done.
Qed.

Lemma plain_line_no_lf l : plain_line l = true -> LF ∉ l.
Proof.
  unfold plain_line, no_line_break. intros [H _]%andb_true_iff Hin.
  rewrite forallb_forall in H. apply list_elem_of_In in Hin. apply H in Hin.
  done.
Qed.

Lemma plain_line_no_escaped_n l : plain_line l = true -> has_escaped_n l = false.
Proof.
  unfold plain_line. intros [_ H]%andb_true_iff. by apply negb_true_iff.
Qed.

Lemma has_escaped_n_join sep lines :
  sep ∈ [[LF]; CRLF; [CR]] ->
  Forall (fun l => plain_line l = true) lines ->
  has_escaped_n (Py.join sep lines) = false.
Proof.
  intros Hsep. induction lines as [|l ls IH]; intros H; [done|].
  inversion H as [|? ? Hl Hls]; subst. destruct ls as [|l' ls].
  - by apply plain_line_no_escaped_n.
  - rewrite join_cons2. specialize (IH Hls).
    apply has_escaped_n_app; [by apply plain_line_no_escaped_n| |].
    + set (r := Py.join sep (l' :: ls)) in *.
      repeat (apply elem_of_cons in Hsep as [->|Hsep]); [| | |by apply elem_of_nil in Hsep];
        simpl; destruct r; done.
    + repeat (apply elem_of_cons in Hsep as [->|Hsep]); [| | |by apply elem_of_nil in Hsep]; done.
Qed.

Lemma split_acc_app sep cur l r :
  sep ∉ l -> Py.split_acc sep cur (l ++ r) = Py.split_acc sep (rev l ++ cur) r.
Proof.
  revert cur. induction l as [|c l IH]; intros cur H; [done|].
  apply not_elem_of_cons in H as [Hc Hl]. simpl.
  destruct (N.eqb_spec c sep); [congruence|].
  rewrite IH by done. by rewrite <- app_assoc.
Qed.

Lemma split_line sep l r :
  sep ∉ l -> Py.split sep (l ++ sep :: r) = l :: Py.split sep r.
Proof.
  intros H. unfold Py.split. rewrite split_acc_app by done. simpl.
  by rewrite N.eqb_refl, app_nil_r, rev_involutive.
Qed.

Lemma split_last sep l : sep ∉ l -> Py.split sep l = [l].
Proof.
  intros H. unfold Py.split. rewrite <- (app_nil_r l) at 1.
  rewrite split_acc_app by done. simpl. by rewrite app_nil_r, rev_involutive.
Qed.

Lemma split_join sep lines :
  lines <> [] -> Forall (fun l => sep ∉ l) lines ->
  Py.split sep (Py.join [sep] lines) = lines.
Proof.
  induction lines as [|l ls IH]; intros Hne H; [done|].
  inversion H as [|? ? Hl Hls]; subst. destruct ls as [|l' ls].
  - by apply split_last.
  - rewrite join_cons2. simpl app. rewrite split_line by done. f_equal. by apply IH.
Qed.

Lemma ends_with_escaped_r_suffix l2 l :
  l2 `suffix_of` l -> ends_with_escaped_r l = false -> ends_with_escaped_r l2 = false.
Proof.
  intros [k ->]. induction k as [|a k IH]; [done|].
  intros H. apply IH. simpl in H.
  destruct (k ++ l2) as [|b [|c t]]; try done.
Qed.

Lemma no_line_break_head c l2 l :
  plain_line l = true -> (c :: l2) `suffix_of` l -> c <> CR /\ c <> LF.
Proof.
  intros Hp [k Hk]. split; intros ->.
  - apply (plain_line_no_cr _ Hp). subst l. set_solver.
  - apply (plain_line_no_lf _ Hp). subst l. set_solver.
Qed.

Ltac break_eqb :=
  repeat match goal with
  | |- context [N.eqb ?a ?b] =>
      destruct (N.eqb_spec a b); subst; cbn -[N.eqb] in *
  | H : context [N.eqb ?a ?b] |- _ =>
      destruct (N.eqb_spec a b); subst; cbn -[N.eqb] in *
  end.

Lemma line_keeps_escaped l l2 r old :
  old = ESC_N \/ old = ESC_RN ->
  plain_line l = true -> l2 <> [] -> l2 `suffix_of` l ->
  (r = [] \/ exists r', r = old ++ r') ->
  Py.strip_prefix old (l2 ++ r) = None.
Proof.
  intros Hold Hp Hne Hsuf Hr.
  assert (He := has_escaped_n_suffix _ _ Hsuf (plain_line_no_escaped_n _ Hp)).
  clear Hp Hsuf.
  destruct l2 as [|c0 [|c1 [|c2 [|c3 t]]]]; [done|..];
    destruct Hold as [-> | ->]; destruct Hr as [-> | [r' ->]];
    cbn -[N.eqb] in He |- *; unfold BACKSLASH in *; break_eqb; try done.
Qed.

Lemma line_keeps_cr l l2 r old :
  old = CRLF \/ old = [CR] ->
  plain_line l = true -> l2 <> [] -> l2 `suffix_of` l ->
  Py.strip_prefix old (l2 ++ r) = None.
Proof.
  intros Hold Hp Hne Hsuf. destruct l2 as [|c l2]; [done|].
  destruct (no_line_break_head _ _ _ Hp Hsuf) as [Hc _].
  destruct Hold as [-> | ->]; unfold CRLF; cbn -[N.eqb];
    destruct (N.eqb_spec CR c); congruence.
Qed.

Lemma replace_sep_join sep lines :
  sep ∈ [CRLF; [CR]; ESC_N; ESC_RN] ->
  Forall (fun l => plain_line l = true) lines ->
  Py.replace sep [LF] (Py.join sep lines) = Py.join [LF] lines.
Proof.
  intros Hsep Hl.
  repeat (apply elem_of_cons in Hsep as [->|Hsep]);
    [..|by apply elem_of_nil in Hsep];
    (apply replace_join; [intros r; by apply replace_match|]);
    (eapply Forall_impl; [exact Hl|]); intros l Hp l2 r Hne Hsuf Hr;
    simpl in Hp.
  - apply (line_keeps_cr l); auto.
  - apply (line_keeps_cr l); auto.
  - apply (line_keeps_escaped l); auto.
  - apply (line_keeps_escaped l); auto.
Qed.

Lemma replace_esc_rn_join_esc_n new lines :
  Forall (fun l => plain_line l = true) lines ->
  Forall (fun l => ends_with_escaped_r l = false) lines ->
  Py.replace ESC_RN new (Py.join ESC_N lines) = Py.join ESC_N lines.
Proof.
  intros Hl He. apply replace_join.
  - intros r. unfold ESC_N. simpl app. by rewrite !replace_skip.
  - rewrite Forall_forall in Hl, He. apply Forall_forall. intros l Hin l2 r Hne Hsuf Hr.
    assert (H1 := has_escaped_n_suffix _ _ Hsuf (plain_line_no_escaped_n _ (Hl _ Hin))).
    assert (H2 := ends_with_escaped_r_suffix _ _ Hsuf (He _ Hin)).
    destruct l2 as [|c0 [|c1 [|c2 [|c3 t]]]]; [done|..];
      destruct Hr as [-> | [r' ->]];
      cbn -[N.eqb] in H1, H2 |- *; unfold BACKSLASH in *; break_eqb; try done.
Qed.

Lemma replace_keeps_lf_join old lines :
  old ∈ [ESC_RN; ESC_N; CRLF; [CR]] ->
  Forall (fun l => plain_line l = true) lines ->
  Py.replace old [LF] (Py.join [LF] lines) = Py.join [LF] lines.
Proof.
  intros Hold Hl.
  assert (CR ∉ Py.join [LF] lines) as Hcr.
  { apply not_elem_of_join; [by intros [?|[]%elem_of_nil]%elem_of_cons|].
    eapply Forall_impl; [exact Hl|]. apply plain_line_no_cr. }
  assert (has_escaped_n (Py.join [LF] lines) = false) as Hesc.
  { apply has_escaped_n_join; [|done]. apply elem_of_cons; by left. }
  repeat (apply elem_of_cons in Hold as [->|Hold]);
    [..|by apply elem_of_nil in Hold].
  - apply replace_no_escaped_n; auto.
  - apply replace_no_escaped_n; auto.
  - apply (replace_absent_char _ _ CR); [|done]. apply elem_of_cons; by left.
  - apply (replace_absent_char _ _ CR); [|done]. apply elem_of_cons; by left.
Qed.

Lemma normalize_join sep lines :
  sep ∈ separators ->
  Forall (fun l => plain_line l = true) lines ->
  (sep = ESC_N -> Forall (fun l => ends_with_escaped_r l = false) lines) ->
  normalize (Py.join sep lines) = Py.join [LF] lines.
Proof.
  intros Hsep Hl He. unfold normalize, separators in *.
  repeat (apply elem_of_cons in Hsep as [->|Hsep]);
    [..|by apply elem_of_nil in Hsep].
  - rewrite !replace_keeps_lf_join; auto; set_solver.
  - rewrite (replace_no_escaped_n ESC_RN), (replace_no_escaped_n ESC_N);
      auto; try (apply has_escaped_n_join; [set_solver|done]).
    rewrite replace_sep_join by (done || set_solver).
    rewrite replace_keeps_lf_join; auto; set_solver.
  - rewrite (replace_no_escaped_n ESC_RN), (replace_no_escaped_n ESC_N);
      auto; try (apply has_escaped_n_join; [set_solver|done]).
    rewrite (replace_absent_char CRLF _ LF).
    + rewrite replace_sep_join by (done || set_solver). done.
    + set_solver.
    + apply not_elem_of_join; [by intros [?|[]%elem_of_nil]%elem_of_cons|].
      eapply Forall_impl; [exact Hl|]. apply plain_line_no_lf.
  - rewrite replace_esc_rn_join_esc_n by auto.
    rewrite replace_sep_join by (done || set_solver).
    rewrite !replace_keeps_lf_join; auto; set_solver.
  - rewrite replace_sep_join by (done || set_solver).
    rewrite !replace_keeps_lf_join; auto; set_solver.
Qed.

(** *** Encoding invariance *)

Lemma logical_lines_join (sep : pystr) (lines : list pystr) :
  sep ∈ separators ->
  Forall (fun l => plain_line l = true) lines ->
  (sep = ESC_N -> Forall (fun l => ends_with_escaped_r l = false) lines) ->
  lines <> [] ->
  logical_lines (Py.join sep lines) = lines.
Proof.
  intros Hsep Hl He Hne. unfold logical_lines.
  rewrite normalize_join by done. apply split_join; [done|].
  eapply Forall_impl; [exact Hl|]. apply plain_line_no_lf.
Qed.

Lemma join_empty_iff (sep sep' : pystr) (lines : list pystr) :
  sep <> [] -> sep' <> [] ->
  bool_decide (Py.join sep lines = []) = bool_decide (Py.join sep' lines = []).
Proof.
  intros H H'. destruct lines as [|l [|l' ls]]; [done..|].
  rewrite !join_cons2.
  rewrite !bool_decide_eq_false_2; [done|..];
    intros [_ [? _]%app_eq_nil]%app_eq_nil; done.
Qed.

Lemma separators_nonempty (sep : pystr) : sep ∈ separators -> sep <> [].
Proof.
  intros Hsep ->. unfold separators in Hsep.
  repeat (apply elem_of_cons in Hsep as [?|Hsep]; [done|]).
  by apply elem_of_nil in Hsep.
Qed.

(** A row is processed through the truth value of its results text and
    through its logical lines only. *)
Lemma rows_loop_results w row rest n m (s1 s2 : pystr) st :
  bool_decide (s1 = []) = bool_decide (s2 = []) ->
  logical_lines s1 = logical_lines s2 ->
  rows_loop w (Row (<[str "Results" := VStr s1]> row) :: rest) n m st =
  rows_loop w (Row (<[str "Results" := VStr s2]> row) :: rest) n m st.
Proof.
  intros Ht Hl. cbn [rows_loop]. unfold row_get.
  rewrite !(lookup_insert_ne _ (str "Results") (str "IP")) by done.
  rewrite !lookup_insert_eq. cbn [default from_option id py_normalize truthy].
  unfold mbind, M_bind, lift.
  destruct (py_strip (default (VStr []) (row !! str "IP"))) as [ip|e]; [|done].
  destruct (bool_decide (ip = [])); [done|].
  rewrite Ht. destruct (bool_decide (s2 = [])); [done|]. cbn [negb].
  unfold logical_lines in Hl. by rewrite Hl.
Qed.

(** C2 (the claim as stated fails): the two lines [a\r] (the letter, a
    backslash and the letter r) and [b] hold no line break in any encoding;
    joined by a line feed they come back as they are, joined by the escape
    sequence backslash-n they come back as [a] and [b], since the first
    replacement reads the end of the first line and the separator as one
    backslash-r-backslash-n. *)
Lemma normalizer_not_encoding_invariant :
  Forall (fun l => plain_line l = true) [str "a\r"; str "b"] /\
  ESC_N ∈ separators /\
  logical_lines (Py.join [LF] [str "a\r"; str "b"]) = [str "a\r"; str "b"] /\
  logical_lines (Py.join ESC_N [str "a\r"; str "b"]) = [str "a"; str "b"] /\
  logical_lines (Py.join ESC_N [str "a\r"; str "b"]) <>
  logical_lines (Py.join [LF] [str "a\r"; str "b"]).
Proof.
  split; [by repeat constructor|]. split; [by repeat constructor|].
  by vm_compute.
Qed.

(** C2 (amended): for lines that hold no line break in any of the
    encodings, and of which none ends with backslash-r when they are joined
    by backslash-n, every encoding gives the same logical lines, namely the
    lines themselves, and the row is processed with the same result. *)
Theorem normalizer_encoding_invariant (lines : list pystr) (sep : pystr) :
  sep ∈ separators ->
  Forall (fun l => plain_line l = true) lines ->
  (sep = ESC_N -> Forall (fun l => ends_with_escaped_r l = false) lines) ->
  logical_lines (Py.join sep lines) = logical_lines (Py.join [LF] lines) /\
  (lines <> [] -> logical_lines (Py.join sep lines) = lines) /\
  (forall w row rest n m st,
     rows_loop w (Row (<[str "Results" := VStr (Py.join sep lines)]> row) :: rest)
       n m st =
     rows_loop w (Row (<[str "Results" := VStr (Py.join [LF] lines)]> row) :: rest)
       n m st).
Proof.
  intros Hsep Hl He.
  assert (logical_lines (Py.join sep lines) = logical_lines (Py.join [LF] lines))
    as Heq.
  { unfold logical_lines. rewrite !normalize_join; try done.
    by apply elem_of_cons; left. }
  split; [done|]. split.
  - intros Hne. by apply logical_lines_join.
  - intros. apply rows_loop_results; [|done].
    apply join_empty_iff; [by apply separators_nonempty|done].
Qed.

Lemma normalizer_encoding_invariant_witness :
  logical_lines (Py.join ESC_N [str "root"; str "C:\run"; str ""]) =
  [str "root"; str "C:\run"; str ""].
Proof.
  apply (normalizer_encoding_invariant [str "root"; str "C:\run"; str ""] ESC_N).
  - by repeat constructor.
  - by repeat constructor.
  - intros _. by repeat constructor.
  - done.
Defined.

(** ** The row processor *)

Lemma csv_rows_writerow w cells st :
  csv_rows w (writerow w cells st).2 = csv_rows w st ++ [cells].
Proof.
  destruct w; simpl; [|done]. rewrite omap_app. simpl. done.
Qed.

Lemma stderr_writerow w cells st : stderr (writerow w cells st).2 = stderr st.
Proof. by destruct w. Qed.

Lemma lines_loop_cons w ip line lines uc fu st :
  lines_loop w ip (line :: lines) uc fu st =
  if accepted (Py.strip line)
  then lines_loop w ip lines (S uc) (S fu)
         (writerow w [ip; Py.strip line] st).2
  else lines_loop w ip lines uc fu st.
Proof.
  cbn [lines_loop]. unfold accepted, passes_validator.
  case_bool_decide as Hempty.
  { rewrite Hempty. by rewrite andb_comm. }
  destruct (is_noise (Py.strip line)); [done|]. cbn [negb andb].
  destruct (is_valid_username (VStr (Py.strip line))) as [b|e] eqn:Hb;
    [|by rewrite is_valid_username_str in Hb].
  unfold mbind, M_bind, lift. destruct b; [|done].
  by destruct w.
Qed.

Lemma lines_loop_spec w ip lines uc fu st :
  exists st',
    lines_loop w ip lines uc fu st =
      (Ok (uc + length (List.filter accepted (map Py.strip lines)),
           fu + length (List.filter accepted (map Py.strip lines)))%nat, st') /\
    csv_rows w st' =
      csv_rows w st ++
      map (fun u => [ip; u]) (List.filter accepted (map Py.strip lines)) /\
    stderr st' = stderr st.
Proof.
  revert uc fu st. induction lines as [|line lines IH]; intros uc fu st.
  - exists st. simpl. rewrite !Nat.add_0_r, app_nil_r. done.
  - rewrite lines_loop_cons. cbn [map List.filter].
    destruct (accepted (Py.strip line)); [|apply IH].
    destruct (IH (S uc) (S fu) (writerow w [ip; Py.strip line] st).2)
      as (st' & Heq & Hrows & Herr).
    exists st'. rewrite Heq, Hrows, Herr, csv_rows_writerow, stderr_writerow.
    cbn [length map]. rewrite <- app_assoc. split; [|done].
    do 3 f_equal; lia.
Qed.

Lemma csv_rows_eprint w d st : csv_rows w (eprint d st).2 = csv_rows w st.
Proof. by destruct w. Qed.

Lemma rows_loop_spec w reader n m st :
  exists st',
    rows_loop w reader n m st = (loop_result reader n m, st') /\
    csv_rows w st' = csv_rows w st ++ rows_written reader /\
    stderr st' = stderr st ++ warnings n reader.
Proof.
  revert n m st. induction reader as [|ev rest IH]; intros n m st.
  - exists st. simpl. by rewrite !app_nil_r.
  - cbn [rows_loop rows_written warnings loop_result].
    destruct ev as [row|e]; [|exists st; simpl; by rewrite !app_nil_r].
    cbn [row_outcome]. unfold mbind, M_bind, lift.
    destruct (py_strip (row_get row (str "IP"))) as [ip|e];
      [|exists st; simpl; by rewrite !app_nil_r].
    case_bool_decide as Hip.
    { destruct (IH (S n) m (eprint (WarnNoIP (S n)) st).2)
        as (st' & Heq & Hrows & Herr).
      exists st'. cbn [outcome_rows outcome_warnings length app].
      rewrite Nat.add_0_r. simpl in Heq |- *. rewrite Heq.
      split; [done|]. split; [done|].
      rewrite Herr. simpl. by rewrite <- app_assoc. }
    destruct (truthy (row_get row (str "Results"))) eqn:Htruthy; cbn [negb].
    2:{ destruct (IH (S n) m (eprint (WarnNoResults (S n) ip) st).2)
          as (st' & Heq & Hrows & Herr).
        exists st'. cbn [outcome_rows outcome_warnings length app].
        rewrite Nat.add_0_r. simpl in Heq |- *. rewrite Heq.
        split; [done|]. split; [done|].
        rewrite Herr. simpl. by rewrite <- app_assoc. }
    destruct (py_normalize (row_get row (str "Results"))) as [s|e];
      [|exists st; simpl; by rewrite !app_nil_r].
    destruct (lines_loop_spec w ip (Py.split LF s) m 0 st)
      as (st1 & Heq1 & Hrows1 & Herr1).
    rewrite Heq1. cbn [outcome_rows].
    set (us := List.filter accepted (map Py.strip (Py.split LF s))) in *.
    rewrite length_map.
    destruct us as [|u us'] eqn:Hus.
    + cbn [length Nat.add bool_decide decide_rel]. 
      rewrite bool_decide_eq_true_2 by done.
      destruct (IH (S n) (m + 0)%nat (eprint (WarnNoUsernames ip) st1).2)
        as (st' & Heq & Hrows & Herr).
      exists st'. simpl in Heq |- *. rewrite Heq. split; [done|].
      rewrite Hrows, csv_rows_eprint, Hrows1, Herr. simpl.
      rewrite Herr1, app_nil_r. by rewrite <- app_assoc.
    + rewrite bool_decide_eq_false_2 by done.
      destruct (IH (S n) (m + length (u :: us'))%nat st1)
        as (st' & Heq & Hrows & Herr).
      exists st'. cbn [mret M_ret]. rewrite Heq. split; [done|].
      rewrite Hrows, Herr, Hrows1, Herr1. cbn [outcome_warnings app].
      by rewrite <- app_assoc.
Qed.

(** ** Counting and ordering the output *)

Lemma outcome_rows_row_output ev :
  outcome_rows (row_outcome ev) = row_output ev.
Proof.
  destruct ev as [row|e]; [|done].
  unfold row_outcome, row_output, candidate_lines, host_of.
  destruct (py_strip (row_get row (str "IP"))) as [ip|e]; [|done].
  case_bool_decide; [done|].
  destruct (row_get row (str "Results")) as [|s|l]; cbn [truthy negb]; try done.
  - case_bool_decide; simpl; done.
  - by destruct (bool_decide (l = [])).
Qed.

Lemma well_typed_not_fails ev :
  row_well_typed ev = true -> forall e, row_outcome ev <> Fails e.
Proof.
  destruct ev as [row|e]; [|done]. unfold row_well_typed, row_outcome.
  destruct (row_get row (str "IP")) as [|ip|]; try done.
  destruct (row_get row (str "Results")) as [|s|]; try done;
    intros _ e; cbn [py_strip truthy negb py_normalize];
    repeat case_bool_decide; simpl; done.
Qed.

Lemma rows_written_valid reader :
  valid_input reader = true -> rows_written reader = flat_map row_output reader.
Proof.
  induction reader as [|ev rest IH]; [done|].
  intros [Hev Hrest]%andb_true_iff. cbn [rows_written flat_map].
  rewrite <- outcome_rows_row_output, <- IH by done.
  pose proof (well_typed_not_fails ev Hev).
  destruct (row_outcome ev); try done. by exfalso; eapply H.
Qed.

Lemma loop_result_valid reader n m :
  valid_input reader = true ->
  loop_result reader n m =
  Ok (n + length reader, m + length (rows_written reader))%nat.
Proof.
  revert n m. induction reader as [|ev rest IH]; intros n m.
  - intros _. simpl. by rewrite !Nat.add_0_r.
  - intros [Hev Hrest]%andb_true_iff. cbn [loop_result rows_written length].
    pose proof (well_typed_not_fails ev Hev).
    destruct (row_outcome ev) eqn:Ho; try (by exfalso; eapply H);
      rewrite IH by done; rewrite ?length_app; f_equal; f_equal; simpl; lia.
Qed.

Lemma rows_written_prefix reader :
  exists k, rows_written reader = flat_map row_output (take k reader).
Proof.
  induction reader as [|ev rest [k IH]]; [by exists 0%nat|].
  cbn [rows_written].
  destruct (row_outcome ev) eqn:Ho; try (exists (S k); cbn [take flat_map];
    by rewrite <- outcome_rows_row_output, Ho, IH).
  by exists 0%nat.
Qed.

Lemma process_rows_spec reader w st :
  exists st',
    process_rows reader w st =
      (match loop_result reader 0 0 with
       | Ok _ => Ok tt
       | Raise e => Raise e
       end, st') /\
    csv_rows w st' = csv_rows w st ++ rows_written reader /\
    stderr st' =
      stderr st ++ warnings 0 reader ++
      match loop_result reader 0 0 with
      | Ok (n, m) => [Summary n m]
      | Raise _ => []
      end.
Proof.
  unfold process_rows, mbind, M_bind.
  destruct (rows_loop_spec w reader 0 0 st) as (st1 & Heq & Hrows & Herr).
  rewrite Heq. destruct (loop_result reader 0 0) as [[n m]|e].
  - exists (eprint (Summary n m) st1).2. split; [done|].
    rewrite csv_rows_eprint. split; [done|].
    simpl. by rewrite Herr, <- app_assoc.
  - exists st1. by rewrite app_nil_r.
Qed.

Lemma length_row_output ev :
  length (row_output ev) = count_accepted (candidate_lines ev).
Proof.
  unfold count_accepted. destruct ev as [row|e]; [|done]. unfold row_output.
  assert (forall lines,
    length (List.filter accepted (map Py.strip lines)) =
    length (List.filter (fun line => passes_validator (Py.strip line)
                                     && negb (is_noise (Py.strip line))) lines))
    as Hlen.
  { induction lines as [|l ls IHl]; [done|]. cbn [map List.filter].
    unfold accepted at 1. rewrite andb_comm.
    destruct (_ && _); simpl; by rewrite IHl. }
  destruct (host_of row) eqn:Hh.
  - by rewrite length_map, Hlen.
  - unfold candidate_lines. by rewrite Hh.
Qed.

Lemma length_flat_map_row_output reader :
  length (flat_map row_output reader) =
  sum_list (map (fun ev => count_accepted (candidate_lines ev)) reader).
Proof.
  induction reader as [|ev rest IH]; [done|].
  cbn [flat_map map sum_list sum_list_with]. 
  by rewrite length_app, length_row_output, IH.
Qed.

(** The candidate lines of a row that has a host identifier and a results
    text are the logical lines of that text. *)
Lemma candidate_lines_present row ip (s : pystr) :
  host_of row = Some ip -> row_get row (str "Results") = VStr s -> s <> [] ->
  candidate_lines (Row row) = logical_lines s.
Proof.
  intros Hh Hr Hs. unfold candidate_lines. rewrite Hh, Hr.
  by rewrite bool_decide_eq_false_2.
Qed.

(** C3: on a valid input (every row read without error, its host
    identifier a string) the run completes and the number of rows it writes
    is the number of candidate lines, summed over the input rows, that pass
    the username validator and are not noise tokens. *)
Theorem emitted_count_equals_accepted_candidates
    (reader : list row_event) (w : writer) (st : state) :
  valid_input reader = true ->
  exists st' data,
    process_rows reader w st = (Ok tt, st') /\
    csv_rows w st' = csv_rows w st ++ data /\
    length data =
      sum_list (map (fun ev => count_accepted (candidate_lines ev)) reader).
Proof.
  intros Hvalid.
  destruct (process_rows_spec reader w st) as (st' & Heq & Hrows & _).
  rewrite loop_result_valid in Heq by done.
  exists st', (rows_written reader). split; [done|]. split; [done|].
  rewrite rows_written_valid by done. apply length_flat_map_row_output.
Qed.

Lemma emitted_count_equals_accepted_candidates_witness :
  valid_input three_rows = true /\
  exists st' data,
    process_rows three_rows ToStdout initial = (Ok tt, st') /\
    csv_rows ToStdout st' = csv_rows ToStdout initial ++ data /\
    length data =
      sum_list (map (fun ev => count_accepted (candidate_lines ev)) three_rows).
Proof.
  split; [by vm_compute|].
  apply emitted_count_equals_accepted_candidates. by vm_compute.
Defined.

Lemma filter_sublist {A} (f : A -> bool) (l : list A) :
  List.filter f l `sublist_of` l.
Proof.
  induction l as [|x l IH]; [constructor|]. simpl.
  destruct (f x); by constructor.
Qed.

Lemma row_output_shape ev :
  exists ip us, row_output ev = map (fun u => [ip; u]) us /\
                us `sublist_of` map Py.strip (candidate_lines ev).
Proof.
  destruct ev as [row|e]; [|exists [], []; split; [done|constructor]].
  unfold row_output. destruct (host_of row) as [ip|].
  - eexists ip, _. split; [reflexivity|]. apply filter_sublist.
  - exists [], []. split; [done|]. apply sublist_nil_l.
Qed.

Lemma count_accepted_le_valid lines : (count_accepted lines <= count_valid lines)%nat.
Proof.
  unfold count_accepted, count_valid.
  induction lines as [|l ls IH]; [done|]. simpl.
  destruct (passes_validator (Py.strip l)); simpl; [|done].
  destruct (negb _); simpl; lia.
Qed.

Lemma sum_take_le {A} (f : A -> nat) (g : A -> nat) k (l : list A) :
  (forall x, f x <= g x)%nat ->
  (sum_list (map f (take k l)) <= sum_list (map g l))%nat.
Proof.
  intros Hfg. revert k. induction l as [|x l IH]; intros k.
  - by rewrite take_nil.
  - destruct k; simpl; [lia|]. specialize (IH k). specialize (Hfg x). 
    unfold sum_list in *. lia.
Qed.

(** C5: on every input, the rows written are the output records of a
    prefix of the input rows (all of them unless an exception ends the
    loop), row after row in input order; the usernames of one row follow
    the order of its candidate lines; and there are at most as many rows as
    candidate lines that pass the validator, summed over the input rows. *)
Theorem output_bounded_and_ordered
    (reader : list row_event) (w : writer) (st : state) :
  exists data k,
    csv_rows w (process_rows reader w st).2 = csv_rows w st ++ data /\
    data = flat_map row_output (take k reader) /\
    (length data <=
       sum_list (map (fun ev => count_valid (candidate_lines ev)) reader))%nat /\
    forall ev, exists ip us,
      row_output ev = map (fun u => [ip; u]) us /\
      us `sublist_of` map Py.strip (candidate_lines ev).
Proof.
  destruct (process_rows_spec reader w st) as (st' & Heq & Hrows & _).
  destruct (rows_written_prefix reader) as [k Hk].
  exists (rows_written reader), k. rewrite Heq. split; [done|].
  split; [done|]. split; [|apply row_output_shape].
  rewrite Hk, length_flat_map_row_output.
  apply sum_take_le. intros ev. apply count_accepted_le_valid.
Qed.

Lemma lower_eq_ascii (u tok : pystr) :
  Forall (fun c => c < 128 /\ c <> 107) tok ->
  Py.lower u = tok <-> map ascii_lower u = tok.
Proof.
  revert tok. induction u as [|c u IH]; intros tok Htok; [done|].
  unfold Py.lower in *. cbn [flat_map map].
  unfold Py.lower_char, ascii_lower at 1.
  destruct ((65 <=? c) && (c <=? 90)) eqn:Hup.
  { destruct tok as [|t tok]; [done|]. inversion Htok; subst. simpl.
    split; intros [= -> H]; f_equal; by apply IH. }
  destruct (N.eqb_spec c 304) as [->|H304].
  { split.
    - intros <-. inversion Htok as [|? ? _ Ht]; subst.
      inversion Ht as [|? ? [Hlt _] _]; subst. lia.
    - intros <-. inversion Htok as [|? ? [Hlt _] _]; subst. lia. }
  destruct (N.eqb_spec c 8490) as [->|H8490].
  { split.
    - intros <-. inversion Htok as [|? ? [_ Hk] _]; subst. done.
    - intros <-. inversion Htok as [|? ? [Hlt _] _]; subst. lia. }
  destruct tok as [|t tok]; [done|]. inversion Htok; subst. simpl.
  split; intros [= -> H]; f_equal; by apply IH.
Qed.

Lemma noise_tokens_ascii :
  Forall (fun tok => Forall (fun c => c < 128 /\ c <> 107) tok
                     /\ map ascii_lower tok = tok) noise_tokens.
Proof. repeat constructor; by vm_compute. Qed.

Lemma is_noise_caseless (u : pystr) :
  is_noise u = false ->
  forall tok, tok ∈ noise_tokens -> caseless_eq u tok = false.
Proof.
  intros Hu tok Htok. unfold is_noise in Hu.
  apply bool_decide_eq_false in Hu. apply bool_decide_eq_false. intros Heq.
  apply Hu. pose proof noise_tokens_ascii as Hall.
  rewrite Forall_forall in Hall. destruct (Hall tok Htok) as [Hascii Hfix].
  rewrite Hfix in Heq. apply lower_eq_ascii in Heq; [|done]. by rewrite Heq.
Qed.

Lemma caseless_is_noise (u tok : pystr) :
  tok ∈ noise_tokens -> caseless_eq u tok = true -> is_noise u = true.
Proof.
  intros Htok Heq. destruct (is_noise u) eqn:Hn; [done|].
  by rewrite (is_noise_caseless u Hn tok Htok) in Heq.
Qed.

Lemma rows_written_cells reader cells :
  cells ∈ rows_written reader ->
  exists row ip line,
    Row row ∈ reader /\ host_of row = Some ip /\
    line ∈ candidate_lines (Row row) /\
    accepted (Py.strip line) = true /\
    cells = [ip; Py.strip line].
Proof.
  destruct (rows_written_prefix reader) as [k ->].
  intros Hin. apply list_elem_of_In, in_flat_map in Hin as (ev & Hev & Hcells).
  apply list_elem_of_In in Hev. apply list_elem_of_In in Hcells.
  assert (ev ∈ reader) as Hev' by (by eapply subseteq_take).
  destruct ev as [row|e]; [|by apply elem_of_nil in Hcells].
  unfold row_output in Hcells. destruct (host_of row) as [ip|] eqn:Hh;
    [|by apply elem_of_nil in Hcells].
  apply list_elem_of_fmap in Hcells as (u & -> & Hu).
  apply list_elem_of_In, filter_In in Hu as [Hu Hacc].
  apply in_map_iff in Hu as (line & <- & Hline).
  exists row, ip, line. repeat split; try done. by apply list_elem_of_In.
Qed.

(** C4: a line that equals a noise token up to case is passed over with
    no output and no message, no row written holds a username that equals
    a noise token up to case, and the row 10.0.0.1 with the results text
    [root], [admin], [Results], each followed by a line feed (or by the
    escape sequence backslash-n), gives exactly the two rows for [root] and
    [admin]. *)
Theorem noise_tokens_never_emitted
    (reader : list row_event) (w : writer) (st : state) :
  (forall ip line lines uc fu st0 tok,
     tok ∈ noise_tokens -> caseless_eq (Py.strip line) tok = true ->
     lines_loop w ip (line :: lines) uc fu st0 =
     lines_loop w ip lines uc fu st0) /\
  (exists data,
     csv_rows w (process_rows reader w st).2 = csv_rows w st ++ data /\
     forall cells, cells ∈ data ->
       exists ip u, cells = [ip; u] /\
         forall tok, tok ∈ noise_tokens -> caseless_eq u tok = false) /\
  process_rows
    [Row (row_of (str "10.0.0.1")
            (str "root" ++ [LF] ++ str "admin" ++ [LF] ++ str "Results" ++ [LF]))]
    ToStdout initial =
  (Ok tt,
   {| stdout := [CsvRow [str "10.0.0.1"; str "root"];
                 CsvRow [str "10.0.0.1"; str "admin"]];
      stderr := [Summary 1 2];
      outfile := None |}) /\
  process_rows
    [Row (row_of (str "10.0.0.1") (str "root\nadmin\nResults\n"))]
    ToStdout initial =
  (Ok tt,
   {| stdout := [CsvRow [str "10.0.0.1"; str "root"];
                 CsvRow [str "10.0.0.1"; str "admin"]];
      stderr := [Summary 1 2];
      outfile := None |}).
Proof.
  split; [|split; [|split; by vm_compute]].
  - intros ip line lines uc fu st0 tok Htok Heq. rewrite lines_loop_cons.
    unfold accepted. by rewrite (caseless_is_noise _ _ Htok Heq).
  - destruct (process_rows_spec reader w st) as (st' & Heq & Hrows & _).
    exists (rows_written reader). rewrite Heq. split; [done|].
    intros cells Hin.
    apply rows_written_cells in Hin as (row & ip & line & _ & _ & _ & Hacc & ->).
    exists ip, (Py.strip line). split; [done|].
    apply is_noise_caseless. unfold accepted in Hacc.
    apply andb_true_iff in Hacc as [Hn _]. by apply negb_true_iff.
Qed.

(** ** Rows, warnings and the exit status *)

Lemma lstrip_suffix s : Py.lstrip s `suffix_of` s.
Proof.
  induction s as [|c s IH]; [done|]. simpl.
  destruct (Py.isspace c); [by apply suffix_cons_r|done].
Qed.

Lemma head_lstrip s c : head (Py.lstrip s) = Some c -> Py.isspace c = false.
Proof.
  induction s as [|a s IH]; [done|]. simpl.
  destruct (Py.isspace a) eqn:Ha; [done|]. by intros [= <-].
Qed.

Lemma rev_reverse {A} (l : list A) : rev l = reverse l.
Proof. apply rev_alt. Qed.

Lemma rstrip_prefix s : Py.rstrip s `prefix_of` s.
Proof.
  unfold Py.rstrip. rewrite !rev_reverse.
  rewrite <- (reverse_involutive s) at 2.
  apply suffix_prefix_reverse, lstrip_suffix.
Qed.

Lemma last_rstrip s c : last (Py.rstrip s) = Some c -> Py.isspace c = false.
Proof.
  unfold Py.rstrip. rewrite (rev_reverse (Py.lstrip _)), last_reverse.
  apply head_lstrip.
Qed.

Lemma strip_no_outer_space s : no_outer_space (Py.strip s) = true.
Proof.
  unfold no_outer_space, Py.strip.
  destruct (head (Py.rstrip (Py.lstrip s))) as [a|] eqn:Hh; [|done].
  destruct (last (Py.rstrip (Py.lstrip s))) as [b|] eqn:Hl; [|done].
  rewrite (last_rstrip _ _ Hl).
  destruct (rstrip_prefix (Py.lstrip s)) as [k Hk].
  apply head_Some in Hh as [t Ht]. rewrite Ht in Hk.
  rewrite (head_lstrip s a); [done|]. by rewrite Hk.
Qed.

Lemma lstrip_spaces s : forallb Py.isspace s = true -> Py.lstrip s = [].
Proof.
  induction s as [|c s IH]; [done|]. simpl.
  intros [-> Hs]%andb_true_iff. by apply IH.
Qed.

Lemma strip_spaces s : forallb Py.isspace s = true -> Py.strip s = [].
Proof. intros H. unfold Py.strip. by rewrite lstrip_spaces. Qed.

Lemma rows_loop_no_ip w row rest n m st :
  py_strip (row_get row (str "IP")) = Ok [] ->
  rows_loop w (Row row :: rest) n m st =
  rows_loop w rest (S n) m (eprint (WarnNoIP (S n)) st).2.
Proof. intros H. cbn [rows_loop]. unfold mbind, M_bind, lift. by rewrite H. Qed.

Lemma rows_loop_no_results w row rest n m st ip :
  py_strip (row_get row (str "IP")) = Ok ip -> ip <> [] ->
  truthy (row_get row (str "Results")) = false ->
  rows_loop w (Row row :: rest) n m st =
  rows_loop w rest (S n) m (eprint (WarnNoResults (S n) ip) st).2.
Proof.
  intros H Hip Hr. cbn [rows_loop]. unfold mbind, M_bind, lift.
  rewrite H, Hr. by rewrite bool_decide_eq_false_2.
Qed.

Lemma lines_loop_none w ip lines uc fu st :
  List.filter accepted (map Py.strip lines) = [] ->
  lines_loop w ip lines uc fu st = (Ok (uc, fu), st).
Proof.
  induction lines as [|line lines IH]; [done|].
  rewrite lines_loop_cons. cbn [map List.filter].
  destruct (accepted (Py.strip line)); [done|]. apply IH.
Qed.

Lemma rows_loop_no_usernames w row rest n m st ip s :
  py_strip (row_get row (str "IP")) = Ok ip -> ip <> [] ->
  row_get row (str "Results") = VStr s -> s <> [] ->
  List.filter accepted (map Py.strip (logical_lines s)) = [] ->
  rows_loop w (Row row :: rest) n m st =
  rows_loop w rest (S n) m (eprint (WarnNoUsernames ip) st).2.
Proof.
  intros H Hip Hr Hs Hnone. cbn [rows_loop]. unfold mbind, M_bind, lift.
  rewrite H, Hr. rewrite bool_decide_eq_false_2 by done.
  cbn [truthy negb py_normalize]. rewrite bool_decide_eq_false_2 by done.
  cbn [negb]. unfold logical_lines in Hnone. by rewrite lines_loop_none.
Qed.

Lemma print_all_spec lines st :
  print_all lines st =
  (Ok tt, {| stdout := stdout st ++ map Printed lines; stderr := stderr st;
             outfile := outfile st |}).
Proof.
  revert st. induction lines as [|l lines IH]; intros st.
  - simpl. rewrite app_nil_r. by destruct st.
  - cbn [print_all]. unfold mbind, M_bind. cbn [print]. rewrite IH. simpl.
    by rewrite <- app_assoc.
Qed.

Lemma except_clauses_spec input_file (e : exn) st :
  exists d,
    except_clauses input_file e st =
    (Ok false, {| stdout := stdout st; stderr := stderr st ++ [d];
                  outfile := outfile st |}).
Proof. destruct e; eexists; reflexivity. Qed.

Lemma process_rows_stderr_le reader w st :
  (length (stderr st) <= length (stderr (process_rows reader w st).2))%nat.
Proof.
  destruct (process_rows_spec reader w st) as (st' & Heq & _ & Herr).
  rewrite Heq. simpl. rewrite Herr, length_app. lia.
Qed.

(** The body of the [try] statement: it returns [True] exactly when the
    run succeeds, returns [False] after the two messages on the columns,
    and raises otherwise. *)
Ltac give_result :=
  eexists _, _; split; [reflexivity|]; simpl; rewrite ?length_app; simpl;
  repeat split; try done; try lia.

Lemma parse_body_spec world input_file output_file st :
  exists r st',
    parse_body world input_file output_file st = (r, st') /\
    (length (stderr st) <= length (stderr st'))%nat /\
    match r with
    | Ok b =>
        b = run_ok world ([] :: input_file :: option_list output_file) /\
        (b = false -> (length (stderr st) < length (stderr st'))%nat)
    | Raise _ =>
        run_ok world ([] :: input_file :: option_list output_file) = false
    end.
Proof.
  unfold parse_body, run_ok. unfold mbind, M_bind, lift.
  destruct (open_read world input_file) as [f|e]; [|give_result].
  destruct (fieldnames f) as [[names|]|e]; [|give_result..].
  cbn [py_in].
  destruct (bool_decide (str "IP" ∈ names)); cbn [negb andb].
  2:{ give_result. }
  cbn [mret M_ret].
  destruct (bool_decide (str "Results" ∈ names)); cbn [negb andb].
  2:{ give_result. }
  assert (forall w st0,
    exists r st',
      (let (r, st1) := process_rows (events f) w st0 in
       match r with
       | Ok _ => (Ok true, st1)
       | Raise e => (Raise e, st1)
       end) = (r, st') /\
      (length (stderr st0) <= length (stderr st'))%nat /\
      match r with
      | Ok b => b = true /\ exists x, loop_result (events f) 0 0 = Ok x
      | Raise _ => exists e, loop_result (events f) 0 0 = Raise e
      end) as Hproc.
  { intros w st0. pose proof (process_rows_stderr_le (events f) w st0) as Hle.
    destruct (process_rows_spec (events f) w st0) as (st1 & Heq & _ & _).
    rewrite Heq in Hle |- *. simpl in Hle.
    destruct (loop_result (events f) 0 0) as [x|e]; eexists _, _; eauto. }
  destruct output_file as [[|c path]|]; cbn [option_list].
  - destruct (Hproc ToStdout (writerow ToStdout header_row st).2)
      as (r & st' & Heq & Hle & Hr).
    exists r, st'. split; [exact Heq|]. split; [exact Hle|].
    destruct r as [b|e]; [destruct Hr as [-> [x ->]]|destruct Hr as [e' ->]];
      done.
  - unfold open_out. destruct (open_write world (c :: path)) as [e|] eqn:Hw.
    + eexists _, _. split; [reflexivity|]. split; [done|]. simpl.
      by rewrite Hw.
    + destruct (Hproc ToFile (writerow ToFile header_row
        {| stdout := stdout st; stderr := stderr st; outfile := Some [] |}).2)
        as (r & st' & Heq & Hle & Hr).
      exists r, st'. split; [exact Heq|]. split; [exact Hle|]. simpl.
      rewrite Hw.
      destruct r as [b|e]; [destruct Hr as [-> [x ->]]|destruct Hr as [e' ->]];
        done.
  - destruct (Hproc ToStdout (writerow ToStdout header_row st).2)
      as (r & st' & Heq & Hle & Hr).
    exists r, st'. split; [exact Heq|]. split; [exact Hle|].
    destruct r as [b|e]; [destruct Hr as [-> [x ->]]|destruct Hr as [e' ->]];
      done.
Qed.

Lemma parse_qualys_csv_spec world input_file output_file st :
  exists st',
    parse_qualys_csv world input_file output_file st =
      (Ok (run_ok world ([] :: input_file :: option_list output_file)), st') /\
    (run_ok world ([] :: input_file :: option_list output_file) = false ->
     (length (stderr st) < length (stderr st'))%nat).
Proof.
  unfold parse_qualys_csv, try_except.
  destruct (parse_body_spec world input_file output_file st)
    as (r & st1 & -> & Hle & Hr).
  destruct r as [b|e].
  - destruct Hr as [-> Hlt]. by exists st1.
  - destruct (except_clauses_spec input_file e st1) as [d ->].
    rewrite Hr. eexists. split; [done|]. intros _. simpl.
    rewrite length_app. simpl. lia.
Qed.

Lemma main_spec world argv st :
  exists st',
    main world argv st =
      (Ok (if run_ok world argv then 0%Z else 1%Z), st') /\
    (run_ok world argv = false ->
     (length (stderr st) < length (stderr st'))%nat \/
     (length (stdout st) < length (stdout st'))%nat).
Proof.
  assert (forall st0, exists st',
    (print_all usage;; mret 1%Z : M Z) st0 = (Ok 1%Z, st') /\
    (length (stdout st0) < length (stdout st'))%nat) as Husage.
  { intros st0. unfold mbind, M_bind. rewrite print_all_spec.
    eexists. split; [reflexivity|]. simpl. rewrite length_app. simpl. lia. }
  destruct argv as [|prog [|input_file rest]].
  - destruct (Husage st) as (st' & Heq & Hlt). exists st'. simpl. eauto.
  - destruct (Husage st) as (st' & Heq & Hlt). exists st'. simpl. eauto.
  - cbn [main]. unfold mbind, M_bind.
    destruct (parse_qualys_csv_spec world input_file
                match rest with o :: _ => Some o | [] => None end st)
      as (st' & Heq & Hlt).
    rewrite Heq. exists st'.
    assert (run_ok world (prog :: input_file :: rest) =
            run_ok world ([] :: input_file ::
              option_list match rest with o :: _ => Some o | [] => None end))
      as -> by (by destruct rest).
    split; [done|]. intros H. left. by apply Hlt.
Qed.

Lemma run_ok_valid world prog input_file rest f names :
  open_read world input_file = Ok f ->
  fieldnames f = Ok (Some names) ->
  str "IP" ∈ names -> str "Results" ∈ names ->
  (forall o, head rest = Some o -> open_write world o = None) ->
  valid_input (events f) = true ->
  run_ok world (prog :: input_file :: rest) = true.
Proof.
  intros Hf Hn Hip Hres Hout Hvalid. unfold run_ok. rewrite Hf, Hn.
  rewrite !bool_decide_eq_true_2 by done.
  rewrite loop_result_valid by done. cbn [andb].
  destruct rest as [|[|c path] rest]; [done..|].
  by rewrite (Hout (c :: path)).
Qed.

Lemma run_ok_missing_column world prog input_file rest f names :
  open_read world input_file = Ok f ->
  fieldnames f = Ok (Some names) ->
  ~ (str "IP" ∈ names /\ str "Results" ∈ names) ->
  run_ok world (prog :: input_file :: rest) = false.
Proof.
  intros Hf Hn Hmiss. unfold run_ok. rewrite Hf, Hn.
  do 2 case_bool_decide; try done. by exfalso; apply Hmiss.
Qed.

(** C8: [main] always ends with an exit status and raises nothing: the
    status is 0 when the run succeeds (whatever the number of usernames
    found) and 1 otherwise, in particular when the input file cannot be
    opened, when the column check fails and when an exception ends the
    processing; and a status of 1 comes with a message. *)
Theorem exit_status_is_zero_or_one
    (world : env) (argv : list pystr) (st : state) :
  exists (code : Z) (st' : state),
    main world argv st = (Ok code, st') /\
    code = (if run_ok world argv then 0%Z else 1%Z) /\
    (code = 0%Z \/ code = 1%Z) /\
    (code = 1%Z ->
     (length (stderr st) < length (stderr st'))%nat \/
     (length (stdout st) < length (stdout st'))%nat) /\
    (forall prog input_file rest e,
       argv = prog :: input_file :: rest ->
       open_read world input_file = Raise e -> code = 1%Z) /\
    (forall prog input_file rest f names,
       argv = prog :: input_file :: rest ->
       open_read world input_file = Ok f ->
       fieldnames f = Ok (Some names) ->
       ~ (str "IP" ∈ names /\ str "Results" ∈ names) -> code = 1%Z) /\
    (forall prog input_file rest f names e,
       argv = prog :: input_file :: rest ->
       open_read world input_file = Ok f ->
       fieldnames f = Ok (Some names) ->
       loop_result (events f) 0 0 = Raise e -> code = 1%Z) /\
    (forall prog input_file rest f names,
       argv = prog :: input_file :: rest ->
       open_read world input_file = Ok f ->
       fieldnames f = Ok (Some names) ->
       str "IP" ∈ names -> str "Results" ∈ names ->
       (forall o, head rest = Some o -> open_write world o = None) ->
       valid_input (events f) = true -> code = 0%Z).
Proof.
  destruct (main_spec world argv st) as (st' & Heq & Hmsg).
  exists (if run_ok world argv then 0%Z else 1%Z), st'.
  split; [done|]. split; [done|]. split; [by destruct (run_ok world argv); auto|].
  split; [by destruct (run_ok world argv); auto|].
  split; [|split; [|split]].
  - intros prog input_file rest e -> He. unfold run_ok. by rewrite He.
  - intros prog input_file rest f names -> Hf Hn Hmiss.
    by rewrite (run_ok_missing_column _ _ _ _ f names).
  - intros prog input_file rest f names e -> Hf Hn He. unfold run_ok.
    rewrite Hf, Hn, He. by rewrite !andb_false_r.
  - intros prog input_file rest f names -> Hf Hn Hip Hres Hout Hvalid.
    by rewrite (run_ok_valid _ _ _ _ f names).
Qed.

(** C6: when the header lacks the column [IP] or the column [Results],
    the run prints the expected and the found column names on standard
    error, exits with status 1 and writes nothing: standard output is
    untouched and the output file is not opened. *)
Theorem missing_column_aborts
    (world : env) (prog input_file : pystr) (rest : list pystr)
    (f : csv_file) (names : list pystr) (st : state) :
  open_read world input_file = Ok f ->
  fieldnames f = Ok (Some names) ->
  ~ (str "IP" ∈ names /\ str "Results" ∈ names) ->
  main world (prog :: input_file :: rest) st =
  (Ok 1%Z, {| stdout := stdout st;
              stderr := stderr st ++ [ErrColumns; FoundColumns names];
              outfile := outfile st |}).
Proof.
  intros Hf Hn Hmiss. cbn [main].
  unfold mbind at 1, M_bind at 1.
  unfold parse_qualys_csv, try_except, parse_body.
  unfold mbind, M_bind, lift. rewrite Hf, Hn. cbn [py_in].
  case_bool_decide as Hip; cbn [negb mret M_ret].
  - case_bool_decide as Hres; [by exfalso; apply Hmiss|].
    simpl. by rewrite <- app_assoc.
  - simpl. by rewrite <- app_assoc.
Qed.

Lemma missing_column_aborts_witness :
  main world_without_results [str "qualys_parser.py"; str "in.csv"; str "out.csv"]
    initial =
  (Ok 1%Z, {| stdout := [];
              stderr := [ErrColumns; FoundColumns [str "IP"; str "Output"]];
              outfile := None |}).
Proof.
  refine (missing_column_aborts world_without_results
            (str "qualys_parser.py") (str "in.csv") [str "out.csv"]
            {| fieldnames := Ok (Some [str "IP"; str "Output"]);
               events := [Row (<[str "IP" := VStr (str "10.0.0.1")]>
                                (<[str "Output" := VStr (str "root")]> ∅))] |}
            [str "IP"; str "Output"] initial _ _ _).
  - reflexivity.
  - reflexivity.
  - intros [_ H]. vm_compute in H.
    repeat (apply elem_of_cons in H as [H|H]; [discriminate H|]).
    by apply elem_of_nil in H.
Defined.

(** An input without header (an empty file) also ends the run with status
    1 and no output; the message is that of the [TypeError]. *)
Lemma empty_input_aborts world prog input_file rest f st :
  open_read world input_file = Ok f ->
  fieldnames f = Ok None ->
  main world (prog :: input_file :: rest) st =
  (Ok 1%Z, {| stdout := stdout st;
              stderr := stderr st ++ [ErrException TypeError];
              outfile := outfile st |}).
Proof.
  intros Hf Hn. cbn [main]. unfold mbind at 1, M_bind at 1.
  unfold parse_qualys_csv, try_except, parse_body.
  unfold mbind, M_bind, lift. by rewrite Hf, Hn.
Qed.

(** C7: a row with an empty host identifier is skipped with a warning
    and the loop goes on; so is a row with an empty results field, which
    writes nothing; a row whose lines give no username gets a warning that
    names its host; and whatever warnings a run over well-formed rows
    prints, it ends with exit status 0. *)
Theorem row_conditions_are_advisory (world : env) (w : writer) :
  (forall row rest n m st,
     py_strip (row_get row (str "IP")) = Ok [] ->
     rows_loop w (Row row :: rest) n m st =
     rows_loop w rest (S n) m (eprint (WarnNoIP (S n)) st).2) /\
  (forall row rest n m st ip,
     py_strip (row_get row (str "IP")) = Ok ip -> ip <> [] ->
     truthy (row_get row (str "Results")) = false ->
     rows_loop w (Row row :: rest) n m st =
     rows_loop w rest (S n) m (eprint (WarnNoResults (S n) ip) st).2) /\
  (forall row rest n m st ip s,
     py_strip (row_get row (str "IP")) = Ok ip -> ip <> [] ->
     row_get row (str "Results") = VStr s -> s <> [] ->
     List.filter accepted (map Py.strip (logical_lines s)) = [] ->
     rows_loop w (Row row :: rest) n m st =
     rows_loop w rest (S n) m (eprint (WarnNoUsernames ip) st).2) /\
  (forall prog input_file rest f names st,
     open_read world input_file = Ok f ->
     fieldnames f = Ok (Some names) ->
     str "IP" ∈ names -> str "Results" ∈ names ->
     (forall o, head rest = Some o -> open_write world o = None) ->
     valid_input (events f) = true ->
     exists st',
       main world (prog :: input_file :: rest) st = (Ok 0%Z, st') /\
       stderr st' =
         stderr st ++ warnings 0 (events f) ++
         [Summary (length (events f)) (length (rows_written (events f)))]).
Proof.
  split; [|split; [|split]].
  - intros. by apply rows_loop_no_ip.
  - intros. by apply rows_loop_no_results.
  - intros. by eapply rows_loop_no_usernames.
  - intros prog input_file rest f names st Hf Hn Hip Hres Hout Hvalid.
    cbn [main]. unfold mbind at 1, M_bind at 1.
    unfold parse_qualys_csv, try_except, parse_body.
    unfold mbind, M_bind, lift. rewrite Hf, Hn. cbn [py_in].
    rewrite !bool_decide_eq_true_2 by done. cbn [negb mret M_ret].
    assert (forall w0 st0, exists st',
      process_rows (events f) w0 st0 = (Ok tt, st') /\
      stderr st' = stderr st0 ++ warnings 0 (events f) ++
        [Summary (length (events f)) (length (rows_written (events f)))])
      as Hproc.
    { intros w0 st0.
      destruct (process_rows_spec (events f) w0 st0) as (st' & Heq & _ & Herr).
      rewrite loop_result_valid in Heq, Herr by done. by exists st'. }
    destruct rest as [|[|c path] rest].
    + destruct (Hproc ToStdout (writerow ToStdout header_row st).2)
        as (st' & Heq & Herr). exists st'. split; [|done].
      change (writerow ToStdout header_row st)
        with (Ok tt, (writerow ToStdout header_row st).2).
      cbv beta iota. by rewrite Heq.
    + destruct (Hproc ToStdout (writerow ToStdout header_row st).2)
        as (st' & Heq & Herr). exists st'. split; [|done].
      change (writerow ToStdout header_row st)
        with (Ok tt, (writerow ToStdout header_row st).2).
      cbv beta iota. by rewrite Heq.
    + unfold open_out. rewrite (Hout (c :: path)) by done.
      destruct (Hproc ToFile (writerow ToFile header_row
        {| stdout := stdout st; stderr := stderr st; outfile := Some [] |}).2)
        as (st' & Heq & Herr). exists st'. split; [|done].
      cbv beta iota.
      change (writerow ToFile header_row
                {| stdout := stdout st; stderr := stderr st;
                   outfile := Some [] |})
        with (Ok tt, (writerow ToFile header_row
                {| stdout := stdout st; stderr := stderr st;
                   outfile := Some [] |}).2).
      cbv beta iota. by rewrite Heq.
Qed.

(** A run that prints each of the three warnings and ends with status
    0. *)
Lemma main_with_warnings :
  main world_with_warnings [str "qualys_parser.py"; str "in.csv"] initial =
  (Ok 0%Z,
   {| stdout := [ CsvRow [str "IP"; str "Username"];
                  CsvRow [str "10.0.0.1"; str "root"];
                  CsvRow [str "10.0.0.1"; str "admin"] ];
      stderr := [ WarnNoIP 1;
                  WarnNoResults 2 (str "10.0.0.2");
                  WarnNoUsernames (str "10.0.0.3");
                  Summary 4 2 ];
      outfile := None |}).
Proof. by vm_compute. Qed.

Lemma host_of_Some row ip :
  host_of row = Some ip ->
  exists raw, row_get row (str "IP") = VStr raw /\ ip = Py.strip raw /\ ip <> [].
Proof.
  unfold host_of. destruct (row_get row (str "IP")) as [|raw|]; try done.
  cbn [py_strip]. case_bool_decide; [done|]. intros [= <-]. by exists raw.
Qed.

(** C10: a host identifier made of whitespace only is treated as empty;
    every row written holds the stripped host identifier and a stripped
    candidate line, on which the noise and validity tests were made, and
    neither begins or ends with whitespace; the line [ root ] of host
    [ 10.0.0.1 ] is written as [root] of [10.0.0.1]. *)
Theorem fields_are_stripped
    (reader : list row_event) (w : writer) (st : state) :
  (forall row raw rest n m st0,
     row_get row (str "IP") = VStr raw -> forallb Py.isspace raw = true ->
     rows_loop w (Row row :: rest) n m st0 =
     rows_loop w rest (S n) m (eprint (WarnNoIP (S n)) st0).2) /\
  (exists data,
     csv_rows w (process_rows reader w st).2 = csv_rows w st ++ data /\
     forall cells, cells ∈ data ->
       exists row raw line,
         Row row ∈ reader /\
         row_get row (str "IP") = VStr raw /\
         line ∈ candidate_lines (Row row) /\
         cells = [Py.strip raw; Py.strip line] /\
         is_noise (Py.strip line) = false /\
         is_valid_username (VStr (Py.strip line)) = Ok true /\
         no_outer_space (Py.strip raw) = true /\
         no_outer_space (Py.strip line) = true) /\
  process_rows [Row (row_of (str " 10.0.0.1 ") (str " root "))] ToStdout initial =
  (Ok tt,
   {| stdout := [CsvRow [str "10.0.0.1"; str "root"]];
      stderr := [Summary 1 1];
      outfile := None |}).
Proof.
  split; [|split].
  - intros row raw rest n m st0 Hraw Hsp. apply rows_loop_no_ip.
    rewrite Hraw. cbn [py_strip]. by rewrite strip_spaces.
  - destruct (process_rows_spec reader w st) as (st' & Heq & Hrows & _).
    exists (rows_written reader). rewrite Heq. split; [done|].
    intros cells Hin.
    apply rows_written_cells in Hin
      as (row & ip & line & Hrow & Hh & Hline & Hacc & ->).
    apply host_of_Some in Hh as (raw & Hraw & -> & _).
    exists row, raw, line. unfold accepted in Hacc.
    apply andb_true_iff in Hacc as [Hn Hv]. apply negb_true_iff in Hn.
    unfold passes_validator in Hv.
    destruct (is_valid_username (VStr (Py.strip line))) as [b|e]; [|done].
    subst b.
    by rewrite !strip_no_outer_space.
  - by vm_compute.
Qed.

(** ** The language of the validator *)

Lemma match_ending (b : bool) (s : pystr) :
  Re.match_here true [Re.Optional dollar_set; Re.AtEnd] b s = true <->
  s ∈ username_endings.
Proof.
  unfold username_endings. rewrite !elem_of_cons, elem_of_nil.
  destruct s as [|x [|y [|z t]]]; cbn [Re.match_here];
    rewrite ?in_set_dollar; unfold LF.
  - intuition congruence.
  - destruct (N.eqb_spec x 36), (N.eqb_spec x 10); subst; simpl;
      intuition congruence.
  - destruct (N.eqb_spec x 36), (N.eqb_spec y 10); subst; simpl;
      intuition congruence.
  - rewrite andb_false_r. simpl. intuition congruence.
Qed.

Lemma match_tail_iff (b : bool) (s : pystr) :
  Re.match_here true
    [Re.MaxRepeat middle_set; Re.Optional dollar_set; Re.AtEnd] b s = true <->
  exists body ending,
    s = body ++ ending /\ forallb middle_char body = true /\
    ending ∈ username_endings.
Proof.
  revert b. induction s as [|c s IH]; intros b.
  - split; [|done]. intros _. exists [], []. repeat split.
    unfold username_endings. by apply elem_of_cons; left.
  - rewrite match_here_star, orb_true_iff, andb_true_iff, in_set_middle,
      match_ending, IH.
    fold (middle_char c). split.
    + intros [[Hc (body & ending & -> & Hb & He)]|He].
      * exists (c :: body), ending. simpl. by rewrite Hc.
      * by exists [], (c :: s).
    + intros (body & ending & Heq & Hb & He). destruct body as [|c' body].
      * right. simpl in Heq. by subst.
      * left. simpl in Heq, Hb. injection Heq as -> ->.
        apply andb_true_iff in Hb as [Hc Hb]. split; [done|]. by exists body, ending.
Qed.

Lemma matches_username_iff (s : pystr) :
  Re.matches true username_pattern s = true <->
  exists c body ending,
    s = c :: body ++ ending /\ first_char c = true /\
    forallb middle_char body = true /\ ending ∈ username_endings.
Proof.
  unfold Re.matches, username_pattern. cbn [Re.match_here andb].
  destruct s as [|c s].
  - split; [done|]. by intros (? & ? & ? & ? & _).
  - rewrite andb_true_iff, in_set_first, match_tail_iff. fold (first_char c).
    split.
    + intros [Hc (body & ending & -> & Hb & He)]. by exists c, body, ending.
    + intros (c' & body & ending & [= <- ->] & Hc & Hb & He).
      split; [done|]. by exists body, ending.
Qed.

(** X1: [is_valid_username] returns [True] exactly on the strings of at
    most 32 characters made of one character of [[a-z_]], any number of
    characters of [[a-z0-9_-]] (both read under IGNORECASE) and one of the
    four endings: nothing, a dollar sign, a line feed, or a dollar sign and
    a line feed. *)
Theorem is_valid_username_shape (s : pystr) :
  is_valid_username (VStr s) = Ok true <->
  exists c body ending,
    s = c :: body ++ ending /\ first_char c = true /\
    forallb middle_char body = true /\ ending ∈ username_endings /\
    (length s <= 32)%nat.
Proof.
  rewrite is_valid_username_str. split.
  - intros [= H]. apply andb_true_iff in H as [[_ Hm]%andb_true_iff Hl].
    apply matches_username_iff in Hm as (c & body & ending & -> & Hc & Hb & He).
    exists c, body, ending. repeat split; try done.
    apply negb_true_iff, Nat.ltb_ge in Hl. done.
  - intros (c & body & ending & -> & Hc & Hb & He & Hl). f_equal.
    rewrite bool_decide_eq_false_2 by done. cbn [negb andb].
    apply andb_true_iff. split.
    + apply matches_username_iff. by exists c, body, ending.
    + by apply negb_true_iff, Nat.ltb_ge.
Qed.

Lemma in_set_lower (c : N) :
  Re.in_set true first_set (ascii_lower c) = Re.in_set true first_set c /\
  Re.in_set true middle_set (ascii_lower c) = Re.in_set true middle_set c /\
  Re.in_set true dollar_set (ascii_lower c) = Re.in_set true dollar_set c /\
  (ascii_lower c =? LF) = (c =? LF).
Proof.
  unfold Re.in_set, Re.lower_unicode, ascii_lower, LF.
  repeat split; solve_charclass.
Qed.

Lemma match_ending_lower (b : bool) (s : pystr) :
  Re.match_here true [Re.Optional dollar_set; Re.AtEnd] b (map ascii_lower s) =
  Re.match_here true [Re.Optional dollar_set; Re.AtEnd] b s.
Proof.
  destruct s as [|x [|y [|z t]]]; cbn [map Re.match_here]; try done.
  - destruct (in_set_lower x) as (_ & _ & -> & ->). done.
  - destruct (in_set_lower x) as (_ & _ & -> & _).
    destruct (in_set_lower y) as (_ & _ & _ & ->). done.
  - by rewrite !andb_false_r.
Qed.

Lemma match_tail_lower (b : bool) (s : pystr) :
  Re.match_here true
    [Re.MaxRepeat middle_set; Re.Optional dollar_set; Re.AtEnd] b
    (map ascii_lower s) =
  Re.match_here true
    [Re.MaxRepeat middle_set; Re.Optional dollar_set; Re.AtEnd] b s.
Proof.
  revert b. induction s as [|c s IH]; intros b; [done|].
  cbn [map]. rewrite !match_here_star, IH.
  destruct (in_set_lower c) as (_ & -> & _ & _).
  f_equal. apply (match_ending_lower b (c :: s)).
Qed.

Lemma matches_username_lower (s : pystr) :
  Re.matches true username_pattern (map ascii_lower s) =
  Re.matches true username_pattern s.
Proof.
  unfold Re.matches, username_pattern. destruct s as [|c s]; [done|].
  cbn [map Re.match_here andb]. rewrite match_tail_lower.
  by destruct (in_set_lower c) as (-> & _).
Qed.

Lemma is_valid_username_lower (s : pystr) :
  is_valid_username (VStr (map ascii_lower s)) = is_valid_username (VStr s).
Proof.
  rewrite !is_valid_username_str, matches_username_lower, length_map.
  by destruct s.
Qed.

(** X2: two strings that differ only in the case of their ASCII letters
    get the same answer from [is_valid_username]. *)
Theorem is_valid_username_caseless (s s' : pystr) :
  caseless_eq s s' = true ->
  is_valid_username (VStr s) = is_valid_username (VStr s').
Proof.
  intros Heq%bool_decide_eq_true.
  by rewrite <- (is_valid_username_lower s), Heq, is_valid_username_lower.
Qed.

Lemma is_valid_username_caseless_witness :
  is_valid_username (VStr (str "Svc_Backup$")) =
  is_valid_username (VStr (str "sVC_backUP$")).
Proof. apply is_valid_username_caseless. by vm_compute. Defined.

(** ** What the normalizer leaves *)

Lemma replace_cons old new c s :
  old <> [] ->
  Py.replace old new (c :: s) =
  match Py.strip_prefix old (c :: s) with
  | Some r => new ++ Py.replace old new r
  | None => c :: Py.replace old new s
  end.
Proof.
  intros Hold. destruct (Py.strip_prefix old (c :: s)) as [r|] eqn:E.
  - apply strip_prefix_Some in E. rewrite E. by apply replace_match.
  - by apply replace_skip.
Qed.

Lemma strip_prefix_shorter old c s r :
  old <> [] -> Py.strip_prefix old (c :: s) = Some r ->
  (length r <= length s)%nat /\ r `suffix_of` s.
Proof.
  intros Hold E. apply strip_prefix_Some in E.
  destruct old as [|a old]; [done|]. injection E as -> ->.
  rewrite length_app. split; [lia|]. by exists old.
Qed.

Lemma replace_from_Forall (P : N -> Prop) k old new s :
  Forall P s -> Forall P new -> Forall P (Py.replace_from k old new s).
Proof.
  intros Hs Hnew. revert k. induction Hs as [|c s Hc Hs IH]; intros k; [done|].
  cbn [Py.replace_from]. destruct k; [|apply IH].
  destruct (Py.strip_prefix old (c :: s)).
  - apply Forall_app. split; [done|apply IH].
  - constructor; [done|apply IH].
Qed.

Lemma head_replace old s x :
  old <> [] -> head (Py.replace old [LF] s) = Some x ->
  x = LF \/ head s = Some x.
Proof.
  intros Hold. destruct s as [|c s]; [done|]. rewrite replace_cons by done.
  destruct (Py.strip_prefix old (c :: s)); simpl; intros [= <-]; auto.
Qed.

Lemma has_escaped_n_cons c t :
  has_escaped_n (c :: t) =
  match t with
  | b :: _ => (c =? BACKSLASH) && (b =? 110)
  | [] => false
  end || has_escaped_n t.
Proof. by destruct t. Qed.

Lemma has_escaped_n_prefix l b :
  has_escaped_n (l ++ b) = false -> has_escaped_n l = false.
Proof.
  induction l as [|x l IH]; [done|]. destruct l as [|y l]; [done|].
  change (has_escaped_n ((x :: y :: l) ++ b))
    with (((x =? BACKSLASH) && (y =? 110)) || has_escaped_n ((y :: l) ++ b)).
  change (has_escaped_n (x :: y :: l))
    with (((x =? BACKSLASH) && (y =? 110)) || has_escaped_n (y :: l)).
  intros [-> H]%orb_false_iff. by rewrite IH.
Qed.

Lemma list_length_ind {A} (P : list A -> Prop) :
  (forall s, (forall r, (length r < length s)%nat -> P r) -> P s) ->
  forall s, P s.
Proof.
  intros H s. remember (length s) as n eqn:Hn. revert s Hn.
  induction n as [n IH] using lt_wf_ind. intros s ->.
  apply H. intros r Hr. by apply (IH (length r)).
Qed.

Lemma has_escaped_n_lf t : has_escaped_n (LF :: t) = has_escaped_n t.
Proof. by destruct t. Qed.

(** Replacing by a line feed brings in no backslash-n. *)
Lemma replace_keeps_no_escaped_n old s :
  old <> [] -> has_escaped_n s = false ->
  has_escaped_n (Py.replace old [LF] s) = false.
Proof.
  intros Hold. induction s as [s IH] using list_length_ind. intros Hs.
  destruct s as [|c s]; [done|]. rewrite replace_cons by done.
  destruct (Py.strip_prefix old (c :: s)) as [r|] eqn:E.
  - destruct (strip_prefix_shorter _ _ _ _ Hold E) as [Hlen Hsuf].
    simpl app. rewrite has_escaped_n_lf. apply IH; [simpl; lia|].
    apply (has_escaped_n_suffix r (c :: s)); [by apply suffix_cons_r|done].
  - rewrite has_escaped_n_cons in Hs. apply orb_false_iff in Hs as [Hp Hs].
    rewrite has_escaped_n_cons, IH, orb_false_r by (done || (simpl; lia)).
    destruct (Py.replace old [LF] s) as [|b t] eqn:Er; [done|].
    destruct (N.eqb_spec c BACKSLASH) as [->|]; [|done].
    destruct (N.eqb_spec b 110) as [->|]; [|done]. exfalso.
    destruct (head_replace old s 110 Hold) as [H|H]; [by rewrite Er|done|].
    destruct s as [|b s]; [done|]. injection H as ->. done.
Qed.

(** Replacing backslash-n leaves no backslash-n. *)
Lemma replace_esc_n_clears s :
  has_escaped_n (Py.replace ESC_N [LF] s) = false.
Proof.
  induction s as [s IH] using list_length_ind.
  destruct s as [|c s]; [done|]. rewrite replace_cons by done.
  destruct (Py.strip_prefix ESC_N (c :: s)) as [r|] eqn:E.
  - destruct (strip_prefix_shorter ESC_N c s r) as [Hlen _]; [done..|].
    simpl app. rewrite has_escaped_n_lf. apply IH. simpl; lia.
  - rewrite has_escaped_n_cons, IH, orb_false_r by (simpl; lia).
    destruct (Py.replace ESC_N [LF] s) as [|b t] eqn:Er; [done|].
    destruct (N.eqb_spec c BACKSLASH) as [->|]; [|done].
    destruct (N.eqb_spec b 110) as [->|]; [|done]. exfalso.
    destruct (head_replace ESC_N s 110) as [H|H]; [done|by rewrite Er|done|].
    destruct s as [|b s]; [done|]. injection H as ->. done.
Qed.

Lemma replace_cr_clears s : CR ∉ Py.replace [CR] [LF] s.
Proof.
  induction s as [|c s IH]; [by apply not_elem_of_nil|].
  rewrite replace_cons by done. cbn [Py.strip_prefix].
  destruct (N.eqb_spec CR c) as [<-|Hc].
  - simpl. apply not_elem_of_cons. done.
  - apply not_elem_of_cons. split; [congruence|done].
Qed.

Lemma normalize_clean (s : pystr) :
  (CR ∉ normalize s) /\ has_escaped_n (normalize s) = false.
Proof.
  unfold normalize. split; [apply replace_cr_clears|].
  do 2 (apply replace_keeps_no_escaped_n; [done|]).
  apply replace_esc_n_clears.
Qed.

Lemma split_acc_pieces sep cur s l :
  sep ∉ cur -> l ∈ Py.split_acc sep cur s ->
  (sep ∉ l) /\ exists a b, rev cur ++ s = a ++ l ++ b.
Proof.
  revert cur. induction s as [|c s IH]; intros cur Hcur Hl.
  - simpl in Hl. apply list_elem_of_singleton in Hl as ->. split.
    + intros Hin. apply Hcur. by rewrite rev_reverse, elem_of_reverse in Hin.
    + exists [], []. by rewrite app_nil_r.
  - cbn [Py.split_acc] in Hl. destruct (N.eqb_spec c sep) as [->|Hc].
    + apply elem_of_cons in Hl as [->|Hl].
      * split.
        -- intros Hin. apply Hcur. by rewrite rev_reverse, elem_of_reverse in Hin.
        -- by exists [], (sep :: s).
      * destruct (IH [] (not_elem_of_nil _) Hl) as [Hsep (a & b & Hab)].
        split; [done|]. simpl in Hab. exists (rev cur ++ sep :: a), b.
        rewrite Hab, <- !app_assoc. done.
    + destruct (IH (c :: cur)) as [Hsep (a & b & Hab)]; [|done|].
      * apply not_elem_of_cons. split; [congruence|done].
      * split; [done|]. exists a, b. rewrite <- Hab. simpl.
        by rewrite <- app_assoc.
Qed.

Lemma split_pieces sep s l :
  l ∈ Py.split sep s -> (sep ∉ l) /\ exists a b, s = a ++ l ++ b.
Proof. intros Hl. by apply (split_acc_pieces sep [] s l (not_elem_of_nil _)). Qed.

Lemma logical_line_plain (s l : pystr) :
  l ∈ logical_lines s -> plain_line l = true.
Proof.
  intros Hl. apply split_pieces in Hl as [Hlf (a & b & Hab)].
  destruct (normalize_clean s) as [Hcr Hesc]. rewrite Hab in Hcr, Hesc.
  unfold plain_line, no_line_break. apply andb_true_iff. split.
  - apply forallb_forall. intros c Hc%list_elem_of_In.
    apply andb_true_iff. split; apply negb_true_iff, N.eqb_neq; intros ->.
    + apply Hcr. apply elem_of_app. right. apply elem_of_app. by left.
    + done.
  - apply negb_true_iff.
    apply (has_escaped_n_prefix l b).
    apply (has_escaped_n_suffix (l ++ b) (a ++ l ++ b)); [by exists a|done].
Qed.

(** X4: whatever the results text, the replacements leave no carriage
    return and no backslash-n in it, and every line of the split holds no
    line break in any of the encodings. *)
Theorem logical_lines_plain (s : pystr) :
  Forall (fun l => plain_line l = true) (logical_lines s) /\
  (CR ∉ normalize s) /\ has_escaped_n (normalize s) = false.
Proof.
  split; [|apply normalize_clean].
  apply Forall_forall. intros l. apply logical_line_plain.
Qed.

Lemma normalize_fixed (s : pystr) :
  CR ∉ s -> has_escaped_n s = false -> normalize s = s.
Proof.
  intros Hcr Hesc. unfold normalize.
  rewrite (replace_no_escaped_n ESC_RN), (replace_no_escaped_n ESC_N);
    auto.
  rewrite (replace_absent_char CRLF _ CR), (replace_absent_char [CR] _ CR);
    try done; apply elem_of_cons; by left.
Qed.

(** X5: running the replacements a second time changes nothing, and a
    logical line put through the normalizer again comes back as itself
    alone. *)
Theorem normalize_idempotent (s : pystr) :
  normalize (normalize s) = normalize s /\
  forall l, l ∈ logical_lines s -> logical_lines l = [l].
Proof.
  split.
  - destruct (normalize_clean s). by apply normalize_fixed.
  - intros l Hl. apply logical_line_plain in Hl.
    unfold logical_lines. rewrite normalize_fixed.
    + apply split_last. by apply plain_line_no_lf.
    + by apply plain_line_no_cr.
    + by apply plain_line_no_escaped_n.
Qed.

Lemma split_acc_nonempty sep cur s : Py.split_acc sep cur s <> [].
Proof.
  revert cur. induction s as [|c s IH]; intros cur; [done|]. simpl.
  destruct (c =? sep); [done|apply IH].
Qed.

Lemma join_split_acc sep cur s :
  Py.join [sep] (Py.split_acc sep cur s) = rev cur ++ s.
Proof.
  revert cur. induction s as [|c s IH]; intros cur.
  - simpl. by rewrite app_nil_r.
  - cbn [Py.split_acc]. destruct (N.eqb_spec c sep) as [->|Hc].
    + specialize (IH []). pose proof (split_acc_nonempty sep [] s) as Hne.
      destruct (Py.split_acc sep [] s) as [|p rest]; [done|].
      rewrite join_cons2, IH. done.
    + rewrite IH. simpl. by rewrite <- app_assoc.
Qed.

(** X6: the split loses nothing: there is always at least one logical
    line, and the logical lines joined by line feeds are the text the
    replacements produced. *)
Theorem join_logical_lines (s : pystr) :
  Py.join [LF] (logical_lines s) = normalize s /\
  logical_lines s <> [].
Proof.
  split; [apply (join_split_acc LF [] (normalize s))|apply split_acc_nonempty].
Qed.

(** ** The loops as state transformers *)

Lemma put_nil w st : put w [] [] st = st.
Proof. destruct st, w; unfold put; simpl; by rewrite !app_nil_r. Qed.

Lemma put_put w r1 m1 r2 m2 st :
  put w r2 m2 (put w r1 m1 st) = put w (r1 ++ r2) (m1 ++ m2) st.
Proof.
  destruct w; unfold put; simpl.
  - by rewrite map_app, !app_assoc.
  - destruct r1 as [|x r1], r2 as [|y r2]; simpl;
      rewrite ?app_nil_r, <- ?app_assoc; done.
Qed.

Lemma writerow_put w cells st : writerow w cells st = (Ok tt, put w [cells] [] st).
Proof. destruct w; unfold writerow, put; simpl; by rewrite app_nil_r. Qed.

Lemma eprint_put w d st : eprint d st = (Ok tt, put w [] [d] st).
Proof. destruct w; unfold eprint, put; simpl; by rewrite ?app_nil_r. Qed.

Lemma lines_loop_put w ip lines uc fu st :
  lines_loop w ip lines uc fu st =
  (Ok (uc + length (List.filter accepted (map Py.strip lines)),
       fu + length (List.filter accepted (map Py.strip lines)))%nat,
   put w (map (fun u => [ip; u])
            (List.filter accepted (map Py.strip lines))) [] st).
Proof.
  revert uc fu st. induction lines as [|line lines IH]; intros uc fu st.
  - cbn [lines_loop map List.filter length]. by rewrite !Nat.add_0_r, put_nil.
  - rewrite lines_loop_cons. cbn [map List.filter].
    destruct (accepted (Py.strip line)); [|apply IH].
    rewrite IH, writerow_put. cbn [snd length map]. rewrite put_put.
    do 2 f_equal. f_equal; lia.
Qed.

Lemma rows_loop_put w reader n m st :
  rows_loop w reader n m st =
  (loop_result reader n m,
   put w (rows_written reader) (warnings n reader) st).
Proof.
  revert n m st. induction reader as [|ev rest IH]; intros n m st.
  - cbn [rows_loop rows_written warnings loop_result]. by rewrite put_nil.
  - cbn [rows_loop rows_written warnings loop_result].
    destruct ev as [row|e]; [|cbn [row_outcome]; by rewrite put_nil].
    cbn [row_outcome]. unfold mbind, M_bind, lift.
    destruct (py_strip (row_get row (str "IP"))) as [ip|e];
      [|by rewrite put_nil].
    case_bool_decide as Hip.
    { rewrite (eprint_put w), IH, put_put.
      cbn [outcome_rows outcome_warnings length app]. by rewrite Nat.add_0_r. }
    destruct (truthy (row_get row (str "Results"))) eqn:Htruthy; cbn [negb].
    2:{ rewrite (eprint_put w), IH, put_put.
        cbn [outcome_rows outcome_warnings length app].
        by rewrite Nat.add_0_r. }
    destruct (py_normalize (row_get row (str "Results"))) as [s|e];
      [|by rewrite put_nil].
    rewrite lines_loop_put. cbn [outcome_rows].
    set (us := List.filter accepted (map Py.strip (Py.split LF s))) in *.
    rewrite length_map.
    destruct us as [|u us'] eqn:Hus.
    + rewrite bool_decide_eq_true_2 by done.
      rewrite (eprint_put w), IH, !put_put. simpl. by rewrite Nat.add_0_r.
    + rewrite bool_decide_eq_false_2 by done. cbn [mret M_ret].
      rewrite IH, put_put. cbn [outcome_warnings app]. done.
Qed.

Lemma process_rows_put reader w st :
  process_rows reader w st =
  match loop_result reader 0 0 with
  | Ok (n, m) =>
      (Ok tt, put w (rows_written reader)
                (warnings 0 reader ++ [Summary n m]) st)
  | Raise e =>
      (Raise e, put w (rows_written reader) (warnings 0 reader) st)
  end.
Proof.
  unfold process_rows, mbind, M_bind. rewrite rows_loop_put.
  destruct (loop_result reader 0 0) as [[n m]|e]; [|done].
  rewrite (eprint_put w), put_put. by rewrite app_nil_r.
Qed.

Lemma loop_result_ok reader n m n' m' :
  loop_result reader n m = Ok (n', m') ->
  n' = (n + length reader)%nat /\ m' = (m + length (rows_written reader))%nat.
Proof.
  revert n m. induction reader as [|ev rest IH]; intros n m.
  - simpl. intros [= <- <-]. lia.
  - cbn [loop_result rows_written length].
    destruct (row_outcome ev) eqn:Ho; try done; intros H; apply IH in H;
      rewrite ?length_app; simpl in *; lia.
Qed.

Lemma csv_rows_put w rows msgs st :
  csv_rows w (put w rows msgs st) = csv_rows w st ++ rows.
Proof.
  destruct w; unfold csv_rows, put; simpl.
  - rewrite omap_app. f_equal. induction rows as [|r rows IH]; [done|].
    simpl in *. by f_equal.
  - destruct rows; [by rewrite app_nil_r|done].
Qed.

Lemma warnings_are_warnings n reader :
  Forall (fun d => is_warning d = true) (warnings n reader).
Proof.
  revert n. induction reader as [|ev rest IH]; intros n; [constructor|].
  cbn [warnings]. destruct (row_outcome ev) as [|ip|ip [|u us]|e];
    simpl; try constructor; try done; apply IH.
Qed.

(** X13: when [process_rows] returns, what it added to standard error is
    a run of warnings and then the summary, which counts every row read
    (skipped or not) and every row written; when it raises, it added
    warnings only, and no summary. *)
Theorem process_rows_summary
    (reader : list row_event) (w : writer) (st : state) :
  (forall st',
     process_rows reader w st = (Ok tt, st') ->
     exists data msgs,
       csv_rows w st' = csv_rows w st ++ data /\
       stderr st' =
         stderr st ++ msgs ++ [Summary (length reader) (length data)] /\
       Forall (fun d => is_warning d = true) msgs) /\
  (forall e st',
     process_rows reader w st = (Raise e, st') ->
     exists msgs,
       stderr st' = stderr st ++ msgs /\
       Forall (fun d => is_warning d = true) msgs).
Proof.
  rewrite process_rows_put. split.
  - intros st' H. destruct (loop_result reader 0 0) as [[n m]|e] eqn:Hl;
      [|done]. injection H as <-.
    apply loop_result_ok in Hl as [-> ->].
    exists (rows_written reader), (warnings 0 reader).
    rewrite csv_rows_put. split; [done|]. split; [done|].
    apply warnings_are_warnings.
  - intros e st' H. destruct (loop_result reader 0 0) as [[n m]|e0]; [done|].
    injection H as <- <-. exists (warnings 0 reader). split; [done|].
    apply warnings_are_warnings.
Qed.

(** X12: the loop processes its input as a stream: running it over two
    inputs one after the other is running it over the first and, unless
    that raises, over the second from the counters and the state the first
    run left. *)
Theorem rows_loop_app (w : writer) (reader1 reader2 : list row_event)
    (n m : nat) (st : state) :
  rows_loop w (reader1 ++ reader2) n m st =
  match rows_loop w reader1 n m st with
  | (Ok (n', m'), st1) => rows_loop w reader2 n' m' st1
  | (Raise e, st1) => (Raise e, st1)
  end.
Proof.
  revert n m st. induction reader1 as [|ev rest IH]; intros n m st; [done|].
  cbn [app rows_loop]. destruct ev as [row|e]; [|done].
  unfold mbind, M_bind, lift.
  destruct (py_strip (row_get row (str "IP"))) as [ip|e]; [|done].
  case_bool_decide; [apply IH|].
  destruct (negb (truthy (row_get row (str "Results")))); [apply IH|].
  destruct (py_normalize (row_get row (str "Results"))) as [s|e]; [|done].
  rewrite lines_loop_put.
  destruct (bool_decide _); apply IH.
Qed.

(** ** What the rows hold *)

Lemma count_written_username ip u lines :
  accepted u = true ->
  length (List.filter (fun cells => bool_decide (cells = [ip; u]))
            (map (fun u0 => [ip; u0])
               (List.filter accepted (map Py.strip lines)))) =
  length (List.filter (fun line => bool_decide (Py.strip line = u)) lines).
Proof.
  intros Hu. induction lines as [|line lines IH]; [done|].
  cbn [map List.filter]. destruct (accepted (Py.strip line)) eqn:Hacc.
  - cbn [map List.filter]. destruct (decide (Py.strip line = u)) as [Heq|Hne].
    + rewrite !bool_decide_eq_true_2 by congruence. simpl. by rewrite IH.
    + rewrite !bool_decide_eq_false_2 by congruence. done.
  - rewrite bool_decide_eq_false_2; [done|]. intros Heq. congruence.
Qed.

(** X7: the loop over the lines removes no duplicate: an accepted
    username is written once for every line that strips to it, and both
    counters advance by the number of rows written. *)
Theorem lines_loop_keeps_duplicates
    (w : writer) (ip : pystr) (lines : list pystr) (uc fu : nat) (st : state) :
  exists data st',
    lines_loop w ip lines uc fu st =
      (Ok (uc + length data, fu + length data)%nat, st') /\
    csv_rows w st' = csv_rows w st ++ data /\
    forall u, accepted u = true ->
      length (List.filter (fun cells => bool_decide (cells = [ip; u])) data) =
      length (List.filter (fun line => bool_decide (Py.strip line = u)) lines).
Proof.
  eexists _, _. rewrite lines_loop_put, length_map. split; [reflexivity|].
  rewrite csv_rows_put. split; [done|]. intros u Hu.
  by apply count_written_username.
Qed.

Lemma char_not_space (c : N) :
  (first_char c = true \/ middle_char c = true \/ c = 36) ->
  Py.isspace c = false.
Proof.
  unfold first_char, middle_char, Spec.first_ok, Spec.middle_ok,
    Spec.is_letter, Spec.is_digit, Spec.is_extra_letter, Py.isspace.
  intros H. apply not_true_is_false. revert H. bool_to_prop. lia.
Qed.

Lemma accepted_shape (u : pystr) :
  accepted u = true -> no_outer_space u = true ->
  exists c body ending,
    u = c :: body ++ ending /\ first_char c = true /\
    forallb middle_char body = true /\
    (ending = [] \/ ending = [36]) /\ (length u <= 32)%nat.
Proof.
  unfold accepted, passes_validator. intros [_ Hv]%andb_true_iff Hsp.
  rewrite is_valid_username_str in Hv.
  apply andb_true_iff in Hv as [[_ Hm]%andb_true_iff Hl].
  apply negb_true_iff, Nat.ltb_ge in Hl.
  apply matches_username_iff in Hm as (c & body & ending & -> & Hc & Hb & He).
  exists c, body, ending. repeat split; try done.
  unfold username_endings in He. rewrite !elem_of_cons, elem_of_nil in He.
  destruct He as [->|[->|[->|[->|[]]]]]; auto; exfalso.
  - unfold no_outer_space in Hsp. cbn [head] in Hsp.
    rewrite last_cons, last_snoc in Hsp. simpl in Hsp.
    by rewrite andb_false_r in Hsp.
  - unfold no_outer_space in Hsp. cbn [head] in Hsp.
    change [36; LF] with ([36] ++ [LF]) in Hsp.
    rewrite last_cons, app_assoc, last_snoc in Hsp. simpl in Hsp.
    by rewrite andb_false_r in Hsp.
Qed.

Lemma shape_no_space c body ending :
  first_char c = true -> forallb middle_char body = true ->
  (ending = [] \/ ending = [36]) ->
  forallb (fun x => negb (Py.isspace x)) (c :: body ++ ending) = true.
Proof.
  intros Hc Hb He. cbn [forallb]. rewrite forallb_app.
  rewrite (char_not_space c) by auto. cbn [negb andb].
  apply andb_true_iff. split.
  - apply forallb_forall. intros x Hx. rewrite forallb_forall in Hb.
    rewrite (char_not_space x); [done|]. right. left. by apply Hb.
  - by destruct He as [->| ->].
Qed.

(** X8: every row [process_rows] writes has a host identifier that is not
    empty and a username of at most 32 characters, made of one character of
    [[a-z_]], characters of [[a-z0-9_-]] and at most a final dollar sign; it
    holds no whitespace, so the line feed [is_valid_username] tolerates
    never reaches the output. *)
Theorem written_usernames_shape
    (reader : list row_event) (w : writer) (st : state) :
  exists data,
    csv_rows w (process_rows reader w st).2 = csv_rows w st ++ data /\
    forall cells, cells ∈ data ->
      exists ip c body ending,
        cells = [ip; c :: body ++ ending] /\ ip <> [] /\
        first_char c = true /\ forallb middle_char body = true /\
        (ending = [] \/ ending = [36]) /\
        (length (c :: body ++ ending) <= 32)%nat /\
        forallb (fun x => negb (Py.isspace x)) (c :: body ++ ending) = true.
Proof.
  exists (rows_written reader). split.
  - rewrite process_rows_put.
    destruct (loop_result reader 0 0) as [[n m]|e]; apply csv_rows_put.
  - intros cells Hin.
    apply rows_written_cells in Hin
      as (row & ip & line & _ & Hh & _ & Hacc & ->).
    apply host_of_Some in Hh as (raw & _ & -> & Hne).
    destruct (accepted_shape _ Hacc (strip_no_outer_space line))
      as (c & body & ending & Hu & Hc & Hb & He & Hl).
    exists (Py.strip raw), c, body, ending. rewrite <- Hu.
    repeat split; try done. rewrite Hu. by apply shape_no_space.
Qed.

Lemma forallb_iff_Forall {A} (f : A -> bool) (l : list A) :
  forallb f l = true <-> Forall (fun x => f x = true) l.
Proof.
  induction l as [|x l IH]; simpl; [by split|].
  rewrite andb_true_iff, IH. split.
  - intros [??]. by constructor.
  - by inversion 1.
Qed.

Lemma normalize_spaces (s : pystr) :
  forallb Py.isspace s = true -> forallb Py.isspace (normalize s) = true.
Proof.
  rewrite !forallb_iff_Forall. intros Hs. unfold normalize, Py.replace.
  repeat (apply replace_from_Forall; [|by repeat constructor]). done.
Qed.

Lemma blank_lines_give_nothing (s : pystr) :
  forallb Py.isspace s = true ->
  List.filter accepted (map Py.strip (logical_lines s)) = [].
Proof.
  intros Hs%normalize_spaces. unfold logical_lines.
  assert (Forall (fun l => Py.strip l = []) (Py.split LF (normalize s)))
    as Hall.
  { apply Forall_forall. intros l Hl.
    apply split_pieces in Hl as [_ (a & b & Hab)]. apply strip_spaces.
    rewrite Hab, !forallb_app in Hs.
    by apply andb_true_iff in Hs as [_ [Hl _]%andb_true_iff]. }
  induction Hall as [|l ls Hl _ IH]; [done|].
  cbn [map List.filter]. by rewrite Hl.
Qed.

(** X9: a results text that is not empty but made of whitespace only is
    not reported as missing results (the test for that precedes any
    stripping): the row is processed, gives no username, and gets the
    warning that no valid username was found. *)
Theorem whitespace_results_give_no_usernames
    (w : writer) (row : gmap pystr pyval) (rest : list row_event)
    (n m : nat) (st : state) (ip s : pystr) :
  py_strip (row_get row (str "IP")) = Ok ip -> ip <> [] ->
  row_get row (str "Results") = VStr s -> s <> [] ->
  forallb Py.isspace s = true ->
  rows_loop w (Row row :: rest) n m st =
  rows_loop w rest (S n) m (eprint (WarnNoUsernames ip) st).2.
Proof.
  intros Hip Hne Hr Hs Hsp.
  apply (rows_loop_no_usernames w row rest n m st ip s); try done.
  by apply blank_lines_give_nothing.
Qed.

Lemma whitespace_results_give_no_usernames_witness :
  rows_loop ToStdout
    [Row (row_of (str "10.0.0.1") ([32; CR; LF; 9; LF; 32]))] 0 0 initial =
  (Ok (1%nat, 0%nat),
   {| stdout := []; stderr := [WarnNoUsernames (str "10.0.0.1")];
      outfile := None |}).
Proof.
  refine (whitespace_results_give_no_usernames ToStdout
            (row_of (str "10.0.0.1") [32; CR; LF; 9; LF; 32]) [] 0 0 initial
            (str "10.0.0.1") [32; CR; LF; 9; LF; 32] _ _ _ _ _);
    by vm_compute.
Defined.

Lemma same_fields_outcome ev ev' :
  same_fields ev ev' -> row_outcome ev = row_outcome ev'.
Proof.
  destruct ev as [row|e], ev' as [row'|e']; simpl; try done.
  - intros [Hip Hr]. unfold row_get. by rewrite Hip, Hr.
  - by intros ->.
Qed.

(** X11: only the columns [IP] and [Results] are read: two inputs whose
    rows agree on these two fields are processed with the same result and
    the same output, whatever else the rows hold. *)
Theorem other_columns_ignored
    (reader reader' : list row_event) (w : writer) (st : state) :
  Forall2 same_fields reader reader' ->
  process_rows reader w st = process_rows reader' w st.
Proof.
  intros Hsame. rewrite !process_rows_put.
  assert (rows_written reader = rows_written reader' /\
          (forall n, warnings n reader = warnings n reader') /\
          (forall n m, loop_result reader n m = loop_result reader' n m))
    as (-> & Hw & ->).
  { induction Hsame as [|ev ev' r r' Hev _ (IH1 & IH2 & IH3)]; [done|].
    cbn [rows_written warnings loop_result].
    rewrite (same_fields_outcome _ _ Hev), IH1.
    destruct (row_outcome ev'); repeat split; intros; rewrite ?IH2, ?IH3;
      done. }
  by rewrite Hw.
Qed.

Lemma other_columns_ignored_witness :
  process_rows
    [Row (<[str "Port" := VStr (str "22")]>
            (row_of (str "10.0.0.1") (str "root\nadmin")))]
    ToStdout initial =
  process_rows [Row (row_of (str "10.0.0.1") (str "root\nadmin"))]
    ToStdout initial.
Proof.
  apply other_columns_ignored. repeat constructor; by vm_compute.
Defined.

(** ** The whole run *)

Lemma except_clauses_message input_file e st :
  except_clauses input_file e st =
  (Ok false, put ToStdout [] [error_message input_file e] st).
Proof. destruct e; unfold put; simpl; by rewrite app_nil_r. Qed.

(** The run once the header has been checked: the header row and the
    rows of the loop go to the writer, the messages to standard error. *)
Lemma parse_body_checked world input_file output_file f names st :
  open_read world input_file = Ok f ->
  fieldnames f = Ok (Some names) ->
  str "IP" ∈ names -> str "Results" ∈ names ->
  parse_body world input_file output_file st =
  let finish w st0 :=
    match loop_result (events f) 0 0 with
    | Ok (n, m) =>
        (Ok true,
         put w (header_row :: rows_written (events f))
           (warnings 0 (events f) ++ [Summary n m]) st0)
    | Raise e =>
        (Raise e,
         put w (header_row :: rows_written (events f))
           (warnings 0 (events f)) st0)
    end in
  match output_file with
  | Some (c :: path) =>
      match open_write world (c :: path) with
      | Some e => (Raise e, st)
      | None =>
          finish ToFile {| stdout := stdout st; stderr := stderr st;
                           outfile := Some [] |}
      end
  | _ => finish ToStdout st
  end.
Proof.
  intros Hf Hn Hip Hres. unfold parse_body. unfold mbind, M_bind, lift.
  rewrite Hf, Hn. cbn [py_in]. rewrite !bool_decide_eq_true_2 by done.
  cbn [negb mret M_ret].
  assert (forall w st0,
    (let (r, st1) := writerow w header_row st0 in
     match r with
     | Ok _ =>
         let (r0, st2) := process_rows (events f) w st1 in
         match r0 with
         | Ok _ => (Ok true, st2)
         | Raise e => (Raise e, st2)
         end
     | Raise e => (Raise e, st1)
     end) =
    match loop_result (events f) 0 0 with
    | Ok (n, m) =>
        (Ok true,
         put w (header_row :: rows_written (events f))
           (warnings 0 (events f) ++ [Summary n m]) st0)
    | Raise e =>
        (Raise e,
         put w (header_row :: rows_written (events f))
           (warnings 0 (events f)) st0)
    end) as Hfinish.
  { intros w st0. rewrite writerow_put, process_rows_put.
    destruct (loop_result (events f) 0 0) as [[n m]|e]; by rewrite put_put. }
  cbv zeta. destruct output_file as [[|c path]|]; [apply Hfinish| |apply Hfinish].
  unfold open_out. destruct (open_write world (c :: path)); [done|].
  apply Hfinish.
Qed.

Lemma main_parse world prog input_file rest st :
  main world (prog :: input_file :: rest) st =
  match parse_body world input_file
          match rest with o :: _ => Some o | [] => None end st with
  | (Ok b, st') => (Ok (if b then 0%Z else 1%Z), st')
  | (Raise e, st') =>
      (Ok 1%Z, put ToStdout [] [error_message input_file e] st')
  end.
Proof.
  cbn [main]. unfold mbind, M_bind, parse_qualys_csv, try_except.
  destruct (parse_body _ _ _ st) as [[b|e] st']; [done|].
  by rewrite except_clauses_message.
Qed.

Lemma valid_prefix_then_failure good e later :
  valid_input good = true ->
  rows_written (good ++ ReadFails e :: later) = flat_map row_output good /\
  (forall n, warnings n (good ++ ReadFails e :: later) = warnings n good) /\
  (forall n m, loop_result (good ++ ReadFails e :: later) n m = Raise e).
Proof.
  induction good as [|ev good IH]; [done|].
  intros [Hev Hgood]%andb_true_iff. destruct (IH Hgood) as (IH1 & IH2 & IH3).
  cbn [app rows_written warnings loop_result flat_map].
  pose proof (well_typed_not_fails ev Hev) as Hnf.
  rewrite <- outcome_rows_row_output.
  destruct (row_outcome ev) eqn:Ho; try (by exfalso; eapply Hnf);
    repeat split; intros; rewrite ?IH1, ?IH2, ?IH3; done.
Qed.

(** X15: on a run that succeeds the header row comes first and the output
    records of the rows follow, in the output file (created anew, standard
    output untouched) when a path is given, on standard output (no file
    touched) otherwise; standard error gets warnings and then the summary. *)
Theorem successful_run_output
    (world : env) (prog input_file : pystr) (rest : list pystr)
    (f : csv_file) (names : list pystr) (st : state) :
  open_read world input_file = Ok f ->
  fieldnames f = Ok (Some names) ->
  str "IP" ∈ names -> str "Results" ∈ names ->
  valid_input (events f) = true ->
  (forall p, destination rest = Some p -> open_write world p = None) ->
  exists msgs,
    Forall (fun d => is_warning d = true) msgs /\
    main world (prog :: input_file :: rest) st =
    (Ok 0%Z,
     let rows := header_row :: flat_map row_output (events f) in
     let report :=
       msgs ++ [Summary (length (events f))
                  (length (flat_map row_output (events f)))] in
     match destination rest with
     | Some _ =>
         {| stdout := stdout st; stderr := stderr st ++ report;
            outfile := Some rows |}
     | None =>
         {| stdout := stdout st ++ map CsvRow rows;
            stderr := stderr st ++ report; outfile := outfile st |}
     end).
Proof.
  intros Hf Hn Hip Hres Hvalid Hout.
  exists (warnings 0 (events f)). split; [apply warnings_are_warnings|].
  rewrite main_parse, (parse_body_checked world _ _ f names) by done.
  cbv zeta. rewrite loop_result_valid, rows_written_valid by done.
  destruct rest as [|[|c path] rest']; cbn [destination]; try done.
  rewrite (Hout (c :: path)) by done. done.
Qed.

(** X16: when reading a row raises after some rows were processed, what
    was written stays: the destination holds the header row and the output
    records of the rows read before, standard error gets the warnings of
    those rows and the error message but no summary, and the exit status is
    1. *)
Theorem read_error_keeps_partial_output
    (world : env) (prog input_file : pystr) (rest : list pystr)
    (f : csv_file) (names : list pystr) (st : state)
    (good later : list row_event) (e : exn) :
  open_read world input_file = Ok f ->
  fieldnames f = Ok (Some names) ->
  str "IP" ∈ names -> str "Results" ∈ names ->
  events f = good ++ ReadFails e :: later ->
  valid_input good = true ->
  (forall p, destination rest = Some p -> open_write world p = None) ->
  exists msgs,
    Forall (fun d => is_warning d = true) msgs /\
    main world (prog :: input_file :: rest) st =
    (Ok 1%Z,
     let rows := header_row :: flat_map row_output good in
     let report := msgs ++ [error_message input_file e] in
     match destination rest with
     | Some _ =>
         {| stdout := stdout st; stderr := stderr st ++ report;
            outfile := Some rows |}
     | None =>
         {| stdout := stdout st ++ map CsvRow rows;
            stderr := stderr st ++ report; outfile := outfile st |}
     end).
Proof.
  intros Hf Hn Hip Hres Hev Hvalid Hout.
  exists (warnings 0 good). split; [apply warnings_are_warnings|].
  rewrite main_parse, (parse_body_checked world _ _ f names) by done.
  cbv zeta. rewrite Hev.
  destruct (valid_prefix_then_failure good e later Hvalid) as (-> & -> & ->).
  destruct rest as [|[|c path] rest']; cbn [destination];
    rewrite ?(Hout (c :: path)) by done;
    unfold put; simpl; rewrite ?app_nil_r, <- ?app_assoc; done.
Qed.

Lemma parse_body_stdout world input_file output_file st :
  exists rows,
    stdout (parse_body world input_file output_file st).2 =
      stdout st ++ map CsvRow rows /\
    (forall c path, output_file = Some (c :: path) -> rows = []).
Proof.
  assert (exists rows : list (list pystr),
            stdout st = stdout st ++ map CsvRow rows /\
            (forall c path, output_file = Some (c :: path) -> rows = []))
    as Hnone by (exists []; by rewrite app_nil_r).
  destruct (open_read world input_file) as [f|e] eqn:Hf;
    [|unfold parse_body, mbind, M_bind, lift; by rewrite Hf].
  destruct (fieldnames f) as [[names|]|e] eqn:Hn;
    [| unfold parse_body, mbind, M_bind, lift; by rewrite Hf, Hn ..].
  destruct (decide (str "IP" ∈ names)) as [Hip|Hip];
    [|unfold parse_body, mbind, M_bind, lift; rewrite Hf, Hn; cbn [py_in];
      by rewrite bool_decide_eq_false_2].
  destruct (decide (str "Results" ∈ names)) as [Hres|Hres];
    [|unfold parse_body, mbind, M_bind, lift; rewrite Hf, Hn; cbn [py_in];
      rewrite bool_decide_eq_true_2 by done;
      by rewrite bool_decide_eq_false_2].
  rewrite (parse_body_checked world _ _ f names) by done. cbv zeta.
  destruct output_file as [[|c path]|].
  - exists (header_row :: rows_written (events f)). split; [|done].
    by destruct (loop_result (events f) 0 0) as [[n m]|e].
  - destruct (open_write world (c :: path)); [done|].
    exists []. split; [|done]. rewrite app_nil_r.
    by destruct (loop_result (events f) 0 0) as [[n m]|e].
  - exists (header_row :: rows_written (events f)). split; [|done].
    by destruct (loop_result (events f) 0 0) as [[n m]|e].
Qed.

(** X17: once an input path is given, a run adds nothing but CSV rows to
    standard output, and nothing at all when an output path is given: no
    message is ever mixed into the data. *)
Theorem stdout_holds_only_csv_rows
    (world : env) (prog input_file : pystr) (rest : list pystr) (st : state) :
  exists rows,
    stdout (main world (prog :: input_file :: rest) st).2 =
      stdout st ++ map CsvRow rows /\
    (forall p, destination rest = Some p -> rows = []).
Proof.
  rewrite main_parse.
  destruct (parse_body_stdout world input_file
              match rest with o :: _ => Some o | [] => None end st)
    as (rows & Hrows & Hfile).
  exists rows. split.
  - destruct (parse_body _ _ _ st) as [[b|e] st']; simpl in *;
      rewrite ?app_nil_r; done.
  - intros p Hp. destruct rest as [|[|c path] rest']; try done.
    by apply (Hfile c path).
Qed.

(** X18: when the output file cannot be opened the run ends with status 1
    and one message, having written nothing; the message is built from the
    input path, so a missing output directory is reported as the input file
    not found. *)
Theorem output_open_failure
    (world : env) (prog input_file : pystr) (rest : list pystr)
    (f : csv_file) (names : list pystr) (st : state) (p : pystr) (e : exn) :
  open_read world input_file = Ok f ->
  fieldnames f = Ok (Some names) ->
  str "IP" ∈ names -> str "Results" ∈ names ->
  destination rest = Some p -> open_write world p = Some e ->
  main world (prog :: input_file :: rest) st =
  (Ok 1%Z, {| stdout := stdout st;
              stderr := stderr st ++ [error_message input_file e];
              outfile := outfile st |}).
Proof.
  intros Hf Hn Hip Hres Hp He.
  rewrite main_parse, (parse_body_checked world _ _ f names) by done.
  destruct rest as [|[|c path] rest']; try done.
  injection Hp as <-. rewrite He. unfold put. simpl. by rewrite app_nil_r.
Qed.

(** X19: when the input cannot be opened the run ends with status 1 and
    exactly one message on standard error (file not found, or the text of
    the exception), and writes nothing. *)
Theorem input_open_failure
    (world : env) (prog input_file : pystr) (rest : list pystr)
    (st : state) (e : exn) :
  open_read world input_file = Raise e ->
  main world (prog :: input_file :: rest) st =
  (Ok 1%Z, {| stdout := stdout st;
              stderr := stderr st ++ [error_message input_file e];
              outfile := outfile st |}).
Proof.
  intros He. rewrite main_parse. unfold parse_body, mbind, M_bind, lift.
  rewrite He. unfold put. simpl. by rewrite app_nil_r.
Qed.

(** X20: an empty output path counts as no output path (the rows go to
    standard output), and arguments after the output path are ignored. *)
Theorem empty_output_path_means_stdout
    (world : env) (prog input_file out : pystr) (more : list pystr)
    (st : state) :
  main world (prog :: input_file :: [] :: more) st =
    main world [prog; input_file] st /\
  main world (prog :: input_file :: out :: more) st =
    main world [prog; input_file; out] st.
Proof. split; reflexivity. Qed.

(** X21: without an input path [main] prints the nine usage lines on
    standard output, nothing on standard error, opens no file and exits with
    status 1. *)
Theorem usage_without_input_path
    (world : env) (argv : list pystr) (st : state) :
  (length argv < 2)%nat ->
  main world argv st =
  (Ok 1%Z, {| stdout := stdout st ++ map Printed usage;
              stderr := stderr st; outfile := outfile st |}).
Proof.
  intros Hlen. destruct argv as [|prog [|input_file rest]];
    [| |simpl in Hlen; lia];
    cbn [main]; unfold mbind, M_bind; by rewrite print_all_spec.
Qed.

(** X10: a row without the key [IP] is skipped with the warning for an
    empty host identifier, but a row whose [IP] is [None] (a row too short
    to have the field) raises [AttributeError] and ends the loop before
    anything is written for it. *)
Theorem missing_host_key_or_value
    (w : writer) (row : gmap pystr pyval) (rest : list row_event)
    (n m : nat) (st : state) :
  (row !! str "IP" = None ->
   rows_loop w (Row row :: rest) n m st =
   rows_loop w rest (S n) m (eprint (WarnNoIP (S n)) st).2) /\
  (row !! str "IP" = Some VNone ->
   rows_loop w (Row row :: rest) n m st = (Raise AttributeError, st)).
Proof.
  split; intros H; cbn [rows_loop]; unfold row_get, mbind, M_bind, lift;
    by rewrite H.
Qed.

Lemma successful_run_output_witness :
  exists msgs,
    Forall (fun d => is_warning d = true) msgs /\
    main world_with_warnings
      [str "qualys_parser.py"; str "in.csv"; str "out.csv"] initial =
    (Ok 0%Z,
     {| stdout := [];
        stderr := msgs ++ [Summary 4 2];
        outfile := Some [ [str "IP"; str "Username"];
                          [str "10.0.0.1"; str "root"];
                          [str "10.0.0.1"; str "admin"] ] |}).
Proof.
  refine (successful_run_output world_with_warnings
            (str "qualys_parser.py") (str "in.csv") [str "out.csv"]
            (opened world_with_warnings (str "in.csv"))
            [str "IP"; str "Results"] initial _ _ _ _ _ _).
  - reflexivity.
  - reflexivity.
  - by repeat constructor.
  - by repeat constructor.
  - by vm_compute.
  - intros p [= <-]. reflexivity.
Defined.

Lemma read_error_keeps_partial_output_witness :
  exists msgs,
    Forall (fun d => is_warning d = true) msgs /\
    main world_with_read_error [str "qualys_parser.py"; str "in.csv"] initial =
    (Ok 1%Z,
     {| stdout := [ CsvRow [str "IP"; str "Username"];
                    CsvRow [str "10.0.0.1"; str "root"] ];
        stderr := msgs ++ [ErrException CsvError];
        outfile := None |}).
Proof.
  refine (read_error_keeps_partial_output world_with_read_error
            (str "qualys_parser.py") (str "in.csv") []
            (opened world_with_read_error (str "in.csv"))
            [str "IP"; str "Results"] initial
            [Row (row_of (str "10.0.0.1") (str "root"))]
            [Row (row_of (str "10.0.0.2") (str "admin"))] CsvError
            _ _ _ _ _ _ _).
  - reflexivity.
  - reflexivity.
  - by repeat constructor.
  - by repeat constructor.
  - reflexivity.
  - by vm_compute.
  - intros p [=].
Defined.

Lemma output_open_failure_witness :
  main world_read_only
    [str "qualys_parser.py"; str "in.csv"; str "missing/out.csv"] initial =
  (Ok 1%Z, {| stdout := []; stderr := [ErrNotFound (str "in.csv")];
              outfile := None |}).
Proof.
  refine (output_open_failure world_read_only
            (str "qualys_parser.py") (str "in.csv") [str "missing/out.csv"]
            (opened world_read_only (str "in.csv"))
            [str "IP"; str "Results"] initial (str "missing/out.csv")
            FileNotFoundError _ _ _ _ _ _).
  - reflexivity.
  - reflexivity.
  - by repeat constructor.
  - by repeat constructor.
  - reflexivity.
  - reflexivity.
Defined.

Lemma input_open_failure_witness :
  main world_without_input [str "qualys_parser.py"; str "in.csv"] initial =
  (Ok 1%Z, {| stdout := []; stderr := [ErrNotFound (str "in.csv")];
              outfile := None |}).
Proof.
  refine (input_open_failure world_without_input
            (str "qualys_parser.py") (str "in.csv") [] initial
            FileNotFoundError _).
  reflexivity.
Defined.

Lemma usage_without_input_path_witness :
  main world_without_input [str "qualys_parser.py"] initial =
  (Ok 1%Z, {| stdout := map Printed usage; stderr := []; outfile := None |}).
Proof.
  refine (usage_without_input_path world_without_input
            [str "qualys_parser.py"] initial _).
  simpl. lia.
Defined.

(** ** Noise words and row numbers *)

Lemma noise_tokens_valid :
  Forall (fun tok => is_valid_username (VStr tok) = Ok true) noise_tokens.
Proof. repeat constructor. Qed.

(** X3: every string the noise test catches would pass
    [is_valid_username]: it is the noise test alone that keeps these words
    out of the output. *)
Theorem noise_tokens_would_be_valid (u : pystr) :
  is_noise u = true -> is_valid_username (VStr u) = Ok true.
Proof.
  unfold is_noise. intros Hu%bool_decide_eq_true.
  pose proof noise_tokens_ascii as Hascii. pose proof noise_tokens_valid as Hv.
  rewrite Forall_forall in Hascii, Hv.
  destruct (Hascii _ Hu) as [Htok _].
  assert (map ascii_lower u = Py.lower u) as Hlow
    by (by apply (lower_eq_ascii u (Py.lower u))).
  rewrite <- is_valid_username_lower, Hlow. by apply Hv.
Qed.

Lemma noise_tokens_would_be_valid_witness :
  is_valid_username (VStr (str "UserName")) = Ok true.
Proof. apply noise_tokens_would_be_valid. by vm_compute. Defined.

Lemma warnings_after_valid good ev rest n :
  valid_input good = true ->
  warnings n (good ++ ev :: rest) =
  warnings n good ++ warnings (n + length good) (ev :: rest).
Proof.
  revert n. induction good as [|g good IH]; intros n.
  - intros _. simpl. by rewrite Nat.add_0_r.
  - intros [Hg Hgood]%andb_true_iff. cbn [app warnings length].
    pose proof (well_typed_not_fails g Hg) as Hnf.
    destruct (row_outcome g) eqn:Ho; try (by exfalso; eapply Hnf);
      rewrite IH by done; rewrite <- ?app_assoc;
      replace (S n + length good)%nat with (n + S (length good))%nat by lia;
      done.
Qed.

(** X14: the number in the warning for an empty host identifier is the
    position of the row among the rows read, counted from 1 and including
    the rows skipped before it. *)
Theorem warning_row_number
    (w : writer) (good rest : list row_event) (row : gmap pystr pyval)
    (n m : nat) (st : state) :
  valid_input good = true ->
  py_strip (row_get row (str "IP")) = Ok [] ->
  exists before after,
    stderr (rows_loop w (good ++ Row row :: rest) n m st).2 =
    stderr st ++ before ++ WarnNoIP (n + length good + 1) :: after.
Proof.
  intros Hgood Hip. rewrite rows_loop_put, warnings_after_valid by done.
  exists (warnings n good), (warnings (S (n + length good)) rest).
  cbn [warnings row_outcome]. rewrite Hip. simpl.
  by replace (n + length good + 1)%nat with (S (n + length good)) by lia.
Qed.

Lemma warning_row_number_witness :
  exists before after,
    stderr (rows_loop ToStdout
              ([Row (row_of (str "10.0.0.1") (str "root"));
                Row (row_of (str "10.0.0.2") (str ""))]
               ++ Row (row_of (str " ") (str "admin")) :: [])
              0 0 initial).2 =
    stderr initial ++ before ++ WarnNoIP (0 + 2 + 1) :: after.
Proof.
  apply (warning_row_number ToStdout
           [Row (row_of (str "10.0.0.1") (str "root"));
            Row (row_of (str "10.0.0.2") (str ""))]
           [] (row_of (str " ") (str "admin")) 0 0 initial);
    by vm_compute.
Defined.
